(** * Streaming tick pipeline, rolling analytics and alerting

    A shallow embedding of the Python sources of the quantitative analytics
    dashboard ([backend/analytics.py], [backend/alerts.py],
    [backend/backtest.py], [backend/sampler.py], [backend/storage.py],
    [backend/data_processor.py], [config.py]) together with the properties
    the design document states about them.

    Conventions of the embedding:
    - Where a result is arithmetic on floats (the Kalman filter, the
      rolling z-score) the numbers are binary64 floats proper, Rocq's
      primitive [float], and every operation is the rounded one, in the
      order the source writes it: [Frames64], [Kalman], [Rolling64].
    - Where only the order and the equality of the numbers matter (prices
      picked from ticks, the thresholds of the backtest, the stored rows) a
      number is an exact rational ([Qc], canonical fractions, so that
      equality is Leibniz equality), a missing value is absent, and a value
      that can be NaN or an infinity has a type that says so.
      [Analytics.compute_zscore] is the z-score over such numbers, each
      window computed by itself; the square root is a parameter there.
    - A pandas [Series] is a list of (index label, value) pairs.
    - A call that can raise returns an [Outcome]. *)

From Stdlib Require Import Floats.
From Stdlib Require Uint63.
From Stdlib Require Import String Ascii.
From Stdlib Require Import ZArith QArith Qcanon List Bool Lia Lqa.
From Stdlib Require Import Permutation Sorted.
Import ListNotations.

#[local] Set Warnings "-inexact-float".

(* ===================================================================== *)
(** * Part I: the embedding                                               *)
(* ===================================================================== *)

(** ** Outcomes of calls that may raise *)

Inductive Outcome (A : Type) : Type :=
| Return (a : A)
| Raise (exn : string).

Arguments Return {A} a.
Arguments Raise {A} exn.

(** ** Numbers *)

Module Numeric.

Local Open Scope Qc_scope.

(** Integer and fraction literals. *)
Definition qz (z : Z) : Qc := Q2Qc (inject_Z z).
Definition qfrac (a : Z) (b : positive) : Qc := Q2Qc (a # b).
Definition qnat (n : nat) : Qc := qz (Z.of_nat n).

(** A float as the sources see it: a finite number, an infinity or NaN. *)
Inductive fval : Type :=
| Fin (q : Qc)
| PInf
| NInf
| NaN.

Definition Qcltb (a b : Qc) : bool :=
  match a ?= b with Lt => true | _ => false end.
Definition Qcleb (a b : Qc) : bool :=
  match a ?= b with Gt => false | _ => true end.
Definition Qceqb (a b : Qc) : bool :=
  match a ?= b with Eq => true | _ => false end.

Definition Qcmin (a b : Qc) : Qc := if Qcleb a b then a else b.
Definition Qcmax (a b : Qc) : Qc := if Qcleb a b then b else a.

(** Comparisons of floats: every comparison with NaN is false. *)
Definition flt (a b : fval) : bool :=
  match a, b with
  | NaN, _ | _, NaN => false
  | NInf, NInf => false
  | NInf, _ => true
  | _, NInf => false
  | PInf, _ => false
  | Fin _, PInf => true
  | Fin x, Fin y => Qcltb x y
  end.

Definition fle (a b : fval) : bool :=
  match a, b with
  | NaN, _ | _, NaN => false
  | NInf, _ => true
  | _, NInf => false
  | _, PInf => true
  | PInf, Fin _ => false
  | Fin x, Fin y => Qcleb x y
  end.

Definition fgt (a b : fval) : bool := flt b a.
Definition fge (a b : fval) : bool := fle b a.

(** Arithmetic on possibly-missing numbers: NaN propagates. *)
Definition osub (a b : option Qc) : option Qc :=
  match a, b with Some x, Some y => Some (x - y) | _, _ => None end.
Definition oadd (a b : option Qc) : option Qc :=
  match a, b with Some x, Some y => Some (x + y) | _, _ => None end.
Definition omul (a b : option Qc) : option Qc :=
  match a, b with Some x, Some y => Some (x * y) | _, _ => None end.

(** Float division of two possibly-missing numbers, the divisor being a
    non-negative zero when it is zero: [0/0] is NaN, [x/0] an infinity of
    the sign of [x]. *)
Definition odiv (a b : option Qc) : fval :=
  match a, b with
  | Some x, Some y =>
      if Qceqb y 0 then
        (if Qceqb x 0 then NaN else if Qcltb x 0 then NInf else PInf)
      else Fin (x / y)
  | _, _ => NaN
  end.

Definition sum (xs : list Qc) : Qc := fold_right Qcplus 0 xs.

(** A square root to six decimal places, for running the analytics on
    concrete data. *)
Definition sqrt6 (q : Qc) : Qc :=
  Q2Qc (Qmake (Z.sqrt (Qnum q * Zpos (Qden q) * 1000000000000))
              (Qden q * 1000000)).

End Numeric.

(** ** Stable insertion sort

    [ORDER BY] of the store, [sort_values] and the time ordering inside
    [resample] are modelled by one stable sort. *)

Section Sorting.
Variable A : Type.
Variable le : A -> A -> bool.

Fixpoint insert_sorted (a : A) (l : list A) : list A :=
  match l with
  | [] => [a]
  | b :: t => if le a b then a :: l else b :: insert_sorted a t
  end.

Definition isort (l : list A) : list A := fold_right insert_sorted [] l.

End Sorting.

Arguments insert_sorted {A} le a l.
Arguments isort {A} le l.

(** ** pandas frames built from two series *)

Module Frames.

Import Numeric.

(** A series: index labels with values, [None] standing for NaN. *)
Definition Series : Type := list (Z * option Qc).

Definition labels (s : Series) : list Z := map fst s.

(** One row of the two-column frame [pd.DataFrame({'a': s1, 'b': s2})]. *)
Record Row : Type := mkRow { r_label : Z; r_a : option Qc; r_b : option Qc }.

(** A row that survived [dropna()]. *)
Record Obs : Type := mkObs { o_label : Z; o_a : Qc; o_b : Qc }.

Fixpoint lookup (l : Z) (s : Series) : option Qc :=
  match s with
  | [] => None
  | (k, v) :: t => if Z.eqb k l then v else lookup l t
  end.

Fixpoint nodupb (l : list Z) : bool :=
  match l with
  | [] => true
  | x :: t => negb (existsb (Z.eqb x) t) && nodupb t
  end.

Fixpoint dedup (l : list Z) : list Z :=
  match l with
  | [] => []
  | x :: t => if existsb (Z.eqb x) t then dedup t else x :: dedup t
  end.

Fixpoint zip_rows (s1 s2 : Series) : list Row :=
  match s1, s2 with
  | (l, a) :: t1, (_, b) :: t2 => mkRow l a b :: zip_rows t1 t2
  | _, _ => []
  end.

(** [pd.DataFrame({'a': s1, 'b': s2})]: two series with the same index are
    put side by side; otherwise the frame is indexed by the sorted union of
    the labels and each series is re-indexed to it, which pandas refuses
    (raises) when a series carries a duplicated label. *)
Definition DataFrame (s1 s2 : Series) : option (list Row) :=
  if list_eq_dec Z.eq_dec (labels s1) (labels s2) then Some (zip_rows s1 s2)
  else if nodupb (labels s1) && nodupb (labels s2) then
    Some (map (fun l => mkRow l (lookup l s1) (lookup l s2))
              (isort Z.leb (dedup (labels s1 ++ labels s2))))
  else None.

(** [.dropna()]: rows with any missing value are removed. *)
Fixpoint dropna (rows : list Row) : list Obs :=
  match rows with
  | [] => []
  | r :: t =>
      match r_a r, r_b r with
      | Some a, Some b => mkObs (r_label r) a b :: dropna t
      | _, _ => dropna t
      end
  end.

(** [pd.DataFrame({...}).dropna()], as every two-series routine starts. *)
Definition aligned (s1 s2 : Series) : option (list Obs) :=
  option_map dropna (DataFrame s1 s2).

End Frames.

(** ** Frames of binary64 columns

    The same frames over columns of floats proper, for the routines whose
    results are arithmetic on the prices: a missing value is the float
    NaN, and re-indexing fills the labels a series lacks with NaN. *)

Module Frames64.

Import Frames.

Definition Series64 : Type := list (Z * float).

Definition labels64 (s : Series64) : list Z := map fst s.

(** One row of [pd.DataFrame({'p1': s1, 'p2': s2})]. *)
Record Pair : Type := mkPair { label : Z; p1 : float; p2 : float }.

Fixpoint reindex (l : Z) (s : Series64) : float :=
  match s with
  | [] => nan
  | (k, v) :: t => if Z.eqb k l then v else reindex l t
  end.

Fixpoint zip_pairs (s1 s2 : Series64) : list Pair :=
  match s1, s2 with
  | (l, a) :: t1, (_, b) :: t2 => mkPair l a b :: zip_pairs t1 t2
  | _, _ => []
  end.

(** The frame of two series, built by the rule of [Frames.DataFrame]. *)
Definition DataFrame64 (s1 s2 : Series64) : option (list Pair) :=
  if list_eq_dec Z.eq_dec (labels64 s1) (labels64 s2) then Some (zip_pairs s1 s2)
  else if nodupb (labels64 s1) && nodupb (labels64 s2) then
    Some (map (fun l => mkPair l (reindex l s1) (reindex l s2))
              (isort Z.leb (dedup (labels64 s1 ++ labels64 s2))))
  else None.

(** [.dropna()]: a row is kept when neither value is NaN. *)
Definition dropna64 (rows : list Pair) : list Pair :=
  filter (fun r => negb (is_nan (p1 r)) && negb (is_nan (p2 r))) rows.

Definition aligned64 (s1 s2 : Series64) : option (list Pair) :=
  option_map dropna64 (DataFrame64 s1 s2).

End Frames64.

(** ** backend/analytics.py: the Kalman hedge ratio *)

Module Kalman.

Import Frames64.
Local Open Scope float_scope.

(** The filter state: [beta] and the state covariance [P]. *)
Record HedgeState : Type := mkHedge { beta : float; P : float }.

(** Keyword defaults of [compute_kalman_hedge_ratio]. *)
Definition default_initial_beta : float := 1.
Definition default_process_variance : float := 0.01.
Definition default_measurement_variance : float := 0.1.
Definition initial_P : float := 1.

Definition keyword (d : float) (arg : option float) : float :=
  match arg with Some v => v | None => d end.

(** One pass through the body of [for i in range(1, n)], every operation
    in binary64 and in the order the source writes it. *)
Definition kalman_update (process_variance measurement_variance : float)
  (st : HedgeState) (y x : float) : HedgeState :=
  let P_pred := P st + process_variance in
  let residual := y - beta st * x in
  let S := x * P_pred * x + measurement_variance in
  let K := P_pred * x / S in
  mkHedge (beta st + K * residual) ((1 - K * x) * P_pred).

(** The loop over rows [1 .. n-1], returning the state after each row. *)
Fixpoint kalman_loop (process_variance measurement_variance : float)
  (st : HedgeState) (rows : list Pair) : list HedgeState :=
  match rows with
  | [] => []
  | r :: rest =>
      let st' := kalman_update process_variance measurement_variance st
                   (p1 r) (p2 r) in
      st' :: kalman_loop process_variance measurement_variance st' rest
  end.

(** The states written for rows [0 .. n-1]: the initial state for row 0,
    then one update per later row. *)
Definition kalman_states (initial_beta process_variance measurement_variance : float)
  (rows : list Pair) : list HedgeState :=
  let st0 := mkHedge initial_beta initial_P in
  st0 :: kalman_loop process_variance measurement_variance st0 (tl rows).

(** [aligned['p1'] - hedge_ratios * aligned['p2']], element by element. *)
Fixpoint spread_of (rows : list Pair) (betas : list float) : list float :=
  match rows, betas with
  | r :: rt, b :: bt => (p1 r - b * p2 r) :: spread_of rt bt
  | _, _ => []
  end.

(** A float series indexed like the aligned frame. *)
Definition indexed (rows : list Pair) (vals : list float) : Series64 :=
  combine (map label rows) vals.

Definition compute_kalman_hedge_ratio (prices1 prices2 : Series64)
  (initial_beta process_variance measurement_variance : option float)
  : Outcome (Series64 * Series64) :=
  if (length prices1 <? 2)%nat || (length prices2 <? 2)%nat then Return ([], [])
  else
    match aligned64 prices1 prices2 with
    | None => Raise "ValueError"
    | Some rows =>
        if (length rows <? 2)%nat then Return ([], [])
        else
          let betas :=
            map beta (kalman_states
                        (keyword default_initial_beta initial_beta)
                        (keyword default_process_variance process_variance)
                        (keyword default_measurement_variance measurement_variance)
                        rows) in
          Return (indexed rows betas, indexed rows (spread_of rows betas))
    end.

End Kalman.

(** ** Python values and dictionaries *)

Module Py.

Import Numeric.

Inductive PyVal : Type :=
| VNone
| VBool (b : bool)
| VInt (z : Z)
| VFloat (f : fval)
| VStr (s : string)
| VFloats (l : list fval)
| VEmptyDict.

(** A [dict] with string keys, in insertion order. *)
Definition Dict : Type := list (string * PyVal).

(** [bool(v)] *)
Definition truth (v : PyVal) : bool :=
  match v with
  | VNone => false
  | VBool b => b
  | VInt z => negb (z =? 0)%Z
  | VFloat (Fin q) => negb (Qceqb q (Q2Qc 0))
  | VFloat _ => true
  | VStr s => negb (String.eqb s "")
  | VFloats l => match l with [] => false | _ => true end
  | VEmptyDict => false
  end.

Fixpoint get (d : Dict) (k : string) : option PyVal :=
  match d with
  | [] => None
  | (k', v) :: t => if String.eqb k' k then Some v else get t k
  end.

End Py.

(** ** backend/analytics.py: rolling statistics and the gated routines *)

Module Analytics.

Import Numeric Frames Py.
Local Open Scope Qc_scope.

(** The values of a series, by position. *)
Definition Values : Type := list (option Qc).

Fixpoint present (xs : Values) : option (list Qc) :=
  match xs with
  | [] => Some []
  | None :: _ => None
  | Some x :: t =>
      match present t with Some l => Some (x :: l) | None => None end
  end.

(** The trailing [w] elements of a list (all of it when shorter). *)
Definition last_n {A : Type} (w : nat) (l : list A) : list A :=
  skipn (length l - w) l.

Definition mean (xs : list Qc) : option Qc :=
  match xs with
  | [] => None
  | _ => Some (sum xs / qnat (length xs))
  end.

Section Rolling.

(** The square root of the numerical library. *)
Variable sqrt : Qc -> Qc.

(** Sample standard deviation (one degree of freedom removed), undefined
    for fewer than two observations. *)
Definition std (xs : list Qc) : option Qc :=
  match mean xs with
  | None => None
  | Some mu =>
      if (length xs <=? 1)%nat then None
      else Some (sqrt (sum (map (fun x => (x - mu) * (x - mu)) xs)
                       / qnat (length xs - 1)))
  end.

(** [series.rolling(window=w).agg()]: the window slides over the series
    keeping the trailing [w] entries; the aggregate is produced once the
    window is full and holds no missing value, and is NaN before. *)
Fixpoint rolling_from (w : nat) (agg : list Qc -> option Qc)
  (buf : Values) (xs : Values) : Values :=
  match xs with
  | [] => []
  | x :: rest =>
      let buf' := last_n w (buf ++ [x]) in
      (if (length buf' =? w)%nat then
         match present buf' with Some win => agg win | None => None end
       else None)
      :: rolling_from w agg buf' rest
  end.

Definition rolling (w : nat) (agg : list Qc -> option Qc) (xs : Values) : Values :=
  rolling_from w agg [] xs.

Fixpoint map2 {A B C : Type} (f : A -> B -> C) (l1 : list A) (l2 : list B) : list C :=
  match l1, l2 with
  | a :: t1, b :: t2 => f a b :: map2 f t1 t2
  | _, _ => []
  end.

(** [compute_zscore(series, window)]; the result keeps the index of the
    series, so only the values are listed. *)
Definition compute_zscore (series : Values) (window : nat) : list fval :=
  if (length series <? window)%nat then []
  else
    let rolling_mean := rolling window mean series in
    let rolling_std := rolling window std series in
    map2 odiv (map2 osub series rolling_mean) rolling_std.

End Rolling.

Section Gated.

(** The delegated numerical routines; [None] stands for a raised
    exception.  [stat k xs] is the pandas reduction stored under key [k]. *)
Variable stat : string -> Values -> PyVal.
Variable pct_change_dropna : Values -> Values.
Variable ols_fit : list Obs -> option Dict.
Variable huber_fit : list Obs -> option Dict.
Variable theilsen_fit : list Obs -> option Dict.
Variable adfuller : Values -> option Dict.

Definition dropna_values (xs : Values) : Values :=
  filter (fun v => match v with Some _ => true | None => false end) xs.

Definition compute_price_stats (prices : Values) : Outcome Dict :=
  if (length prices <? 2)%nat then Return []
  else
    let returns := pct_change_dropna prices in
    let of_returns (k : string) : PyVal :=
      if (0 <? length returns)%nat then stat k returns else VFloat (Fin 0) in
    Return [ ("mean"%string, stat "mean" prices);
             ("std"%string, stat "std" prices);
             ("min"%string, stat "min" prices);
             ("max"%string, stat "max" prices);
             ("current"%string, stat "current" prices);
             ("return_mean"%string, of_returns "return_mean"%string);
             ("return_std"%string, of_returns "return_std"%string);
             ("volatility"%string, of_returns "volatility"%string);
             ("skewness"%string, of_returns "skewness"%string);
             ("kurtosis"%string, of_returns "kurtosis"%string) ].

Definition compute_ols_regression (y x : Series) : Outcome Dict :=
  if (length y <? 2)%nat || (length x <? 2)%nat
     || negb (length y =? length x)%nat then Return []
  else
    match aligned y x with
    | None => Raise "ValueError"
    | Some rows =>
        if (length rows <? 2)%nat then Return []
        else
          match ols_fit rows with
          | Some d => Return d
          | None => Return []
          end
    end.

Definition compute_robust_regression (y x : Series) (method : string)
  : Outcome Dict :=
  if (length y <? 2)%nat || (length x <? 2)%nat
     || negb (length y =? length x)%nat then Return []
  else
    match aligned y x with
    | None => Raise "ValueError"
    | Some rows =>
        if (length rows <? 2)%nat then Return []
        else
          let fitted :=
            if String.eqb method "huber" then huber_fit rows
            else if String.eqb method "theilsen" then theilsen_fit rows
            else None in
          match fitted with
          | Some d => Return (d ++ [("method"%string, VStr method)])
          | None => Return []
          end
    end.

Definition compute_adf_test (series : Values) : Outcome Dict :=
  if (length series <? 10)%nat then Return []
  else
    match adfuller (dropna_values series) with
    | Some d => Return d
    | None => Return []
    end.

End Gated.

End Analytics.

(** ** The rolling z-score in binary64

    [series.rolling(window).mean()] and [.std()] do not recompute each
    window: pandas keeps running sums, to which it adds the observation
    that enters the window and from which it takes the observation that
    leaves it, in binary64 ([roll_mean] and [roll_var], with Kahan
    compensation and Welford's update).  This module follows that
    computation operation by operation; the counts, which the routines
    keep in machine integers or in a float, are integers here. *)

Module Rolling64.

Import Analytics.
Local Open Scope float_scope.

Definition float_of_count (n : Z) : float := of_uint63 (Uint63.of_Z n).

(** The bounds of the window ending at position [i], for a window of [w]
    observations closed on the right ([FixedWindowIndexer]): positions
    [start .. end - 1].  A window of zero observations is empty. *)
Definition window_end (w i : nat) : nat :=
  match w with O => i | _ => S i end.
Definition window_start (w i : nat) : nat := (window_end w i - w)%nat.

(** [for j in range(a, b)] *)
Definition range (a b : nat) : list nat := seq a (b - a).

(** Infinities are replaced by NaN before the window routines run. *)
Definition prep_values (values : list float) : list float :=
  map (fun v => if is_infinity v then nan else v) values.

(** *** The rolling mean *)

Record MeanState : Type := mkMean {
  m_nobs : Z;
  m_sum_x : float;
  m_neg_ct : Z;
  m_compensation_add : float;
  m_compensation_remove : float;
  m_num_consecutive_same_value : Z;
  m_prev_value : float
}.

Definition add_mean (val : float) (st : MeanState) : MeanState :=
  if (val =? val) then
    let y := val - m_compensation_add st in
    let t := m_sum_x st + y in
    mkMean (m_nobs st + 1) t
           (if get_sign val then m_neg_ct st + 1 else m_neg_ct st)
           (t - m_sum_x st - y)
           (m_compensation_remove st)
           (if (val =? m_prev_value st)
            then m_num_consecutive_same_value st + 1 else 1)
           val
  else st.

Definition remove_mean (val : float) (st : MeanState) : MeanState :=
  if (val =? val) then
    let y := - val - m_compensation_remove st in
    let t := m_sum_x st + y in
    mkMean (m_nobs st - 1) t
           (if get_sign val then m_neg_ct st - 1 else m_neg_ct st)
           (m_compensation_add st)
           (t - m_sum_x st - y)
           (m_num_consecutive_same_value st)
           (m_prev_value st)
  else st.

Definition calc_mean (minp : Z) (st : MeanState) : float :=
  if (minp <=? m_nobs st)%Z && (0 <? m_nobs st)%Z then
    let result := m_sum_x st / float_of_count (m_nobs st) in
    if (m_nobs st <=? m_num_consecutive_same_value st)%Z then m_prev_value st
    else if (m_neg_ct st =? 0)%Z && (result <? 0) then 0
    else if (m_neg_ct st =? m_nobs st)%Z && (0 <? result) then 0
    else result
  else nan.

Definition mean_setup (values : list float) (s e : nat) : MeanState :=
  fold_left (fun st j => add_mean (nth j values nan) st) (range s e)
            (mkMean 0 0 0 0 0 0 (nth s values nan)).

(** The running state after the pass of [roll_mean]'s loop for position
    [i]: the first pass, and every pass whose window starts at or after
    the end of the window before, sets the state up afresh; every other
    pass takes the observations that left the window out and puts the new
    ones in. *)
Fixpoint mean_state (values : list float) (w i : nat) : MeanState :=
  match i with
  | O => mean_setup values (window_start w 0) (window_end w 0)
  | S k =>
      let s := window_start w i in
      let e := window_end w i in
      if (window_end w k <=? s)%nat then mean_setup values s e
      else
        let st := mean_state values w k in
        let st := fold_left (fun st j => remove_mean (nth j values nan) st)
                            (range (window_start w k) s) st in
        fold_left (fun st j => add_mean (nth j values nan) st)
                  (range (window_end w k) e) st
  end.

(** [roll_mean(values, start, end, minp)] *)
Definition roll_mean (values : list float) (w : nat) (minp : Z) : list float :=
  map (fun i => calc_mean minp (mean_state values w i)) (seq 0 (length values)).

(** *** The rolling variance *)

Record VarState : Type := mkVar {
  v_nobs : Z;
  v_mean_x : float;
  v_ssqdm_x : float;
  v_compensation_add : float;
  v_compensation_remove : float;
  v_num_consecutive_same_value : Z;
  v_prev_value : float
}.

Definition add_var (val : float) (st : VarState) : VarState :=
  if (val =? val) then
    let nobs := (v_nobs st + 1)%Z in
    let prev_mean := v_mean_x st - v_compensation_add st in
    let y := val - v_compensation_add st in
    let t := y - v_mean_x st in
    let compensation := t + v_mean_x st - y in
    let delta := t in
    let mean_x := if (nobs =? 0)%Z then 0
                  else v_mean_x st + delta / float_of_count nobs in
    mkVar nobs mean_x
          (v_ssqdm_x st + (val - prev_mean) * (val - mean_x))
          compensation
          (v_compensation_remove st)
          (if (val =? v_prev_value st)
           then v_num_consecutive_same_value st + 1 else 1)
          val
  else st.

Definition remove_var (val : float) (st : VarState) : VarState :=
  if (val =? val) then
    let nobs := (v_nobs st - 1)%Z in
    if (nobs =? 0)%Z then
      mkVar nobs 0 0 (v_compensation_add st) (v_compensation_remove st)
            (v_num_consecutive_same_value st) (v_prev_value st)
    else
      let prev_mean := v_mean_x st - v_compensation_remove st in
      let y := val - v_compensation_remove st in
      let t := y - v_mean_x st in
      let compensation := t + v_mean_x st - y in
      let delta := t in
      let mean_x := v_mean_x st - delta / float_of_count nobs in
      mkVar nobs mean_x
            (v_ssqdm_x st - (val - prev_mean) * (val - mean_x))
            (v_compensation_add st)
            compensation
            (v_num_consecutive_same_value st) (v_prev_value st)
  else st.

Definition calc_var (minp ddof : Z) (st : VarState) : float :=
  if (minp <=? v_nobs st)%Z && (ddof <? v_nobs st)%Z then
    if (v_nobs st =? 1)%Z || (v_nobs st <=? v_num_consecutive_same_value st)%Z
    then 0
    else v_ssqdm_x st / float_of_count (v_nobs st - ddof)
  else nan.

Definition var_setup (values : list float) (s e : nat) : VarState :=
  fold_left (fun st j => add_var (nth j values nan) st) (range s e)
            (mkVar 0 0 0 0 0 0 (nth s values nan)).

Fixpoint var_state (values : list float) (w i : nat) : VarState :=
  match i with
  | O => var_setup values (window_start w 0) (window_end w 0)
  | S k =>
      let s := window_start w i in
      let e := window_end w i in
      if (window_end w k <=? s)%nat then var_setup values s e
      else
        let st := var_state values w k in
        let st := fold_left (fun st j => remove_var (nth j values nan) st)
                            (range (window_start w k) s) st in
        fold_left (fun st j => add_var (nth j values nan) st)
                  (range (window_end w k) e) st
  end.

(** [roll_var(values, start, end, minp, ddof)]; [minp] is raised to 1. *)
Definition roll_var (values : list float) (w : nat) (minp ddof : Z) : list float :=
  map (fun i => calc_var (Z.max minp 1) ddof (var_state values w i))
      (seq 0 (length values)).

(** [zsqrt]: the square root, with zero for a negative argument. *)
Definition zsqrt (x : float) : float := if (x <? 0) then 0 else sqrt x.

(** [series.rolling(window=w).mean()] and [.std()]: at least [w]
    observations are required, and one degree of freedom is removed. *)
Definition rolling_mean (series : list float) (w : nat) : list float :=
  roll_mean (prep_values series) w (Z.of_nat w).

Definition rolling_std (series : list float) (w : nat) : list float :=
  map zsqrt (roll_var (prep_values series) w (Z.of_nat w) 1).

(** [compute_zscore(series, window)] on the values of a float series; the
    result keeps the index of the series. *)
Definition compute_zscore64 (series : list float) (window : nat) : list float :=
  if (length series <? window)%nat then []
  else
    let rolling_mean := rolling_mean series window in
    let rolling_std := rolling_std series window in
    map2 div (map2 sub series rolling_mean) rolling_std.

End Rolling64.

(** ** backend/backtest.py: the mean-reversion backtest *)

Module Backtest.

Import Numeric Frames Analytics.
Local Open Scope Qc_scope.

Inductive Side : Type := LONG | SHORT.

(** The keys a trade gains when it is closed. *)
Record TradeExit : Type := mkExit {
  exit_time : Z;
  exit_price : option Qc;
  exit_zscore : fval;
  pnl : option Qc
}.

(** One entry of [trades]; [closed] is [None] while the position is open. *)
Record Trade : Type := mkTrade {
  side : Side;
  entry_time : Z;
  entry_price : option Qc;
  entry_zscore : fval;
  closed : option TradeExit
}.

(** The local variables of [run] that the loop updates. *)
Record LoopState : Type := mkLoop {
  position : Z;
  trades : list Trade;
  equity_curve : list (option Qc);
  current_equity : option Qc
}.

Definition starting_capital : Qc := qz 100000.
Definition units : Qc := qz 100.

Definition initial_state : LoopState := mkLoop 0 [] [] (Some starting_capital).

(** [trades[-1]] *)
Definition last_trade (ts : list Trade) : option Trade :=
  match rev ts with [] => None | t :: _ => Some t end.

(** [trades[-1].update({...})] *)
Fixpoint update_last (ts : list Trade) (e : TradeExit) : list Trade :=
  match ts with
  | [] => []
  | [t] => [mkTrade (side t) (entry_time t) (entry_price t) (entry_zscore t) (Some e)]
  | t :: rest => t :: update_last rest e
  end.

(** [equity_curve[-1] = v] *)
Fixpoint set_last (l : list (option Qc)) (v : option Qc) : list (option Qc) :=
  match l with
  | [] => []
  | [_] => [v]
  | x :: rest => x :: set_last rest v
  end.

Definition open_trade (s : Side) (st : LoopState)
  (time : Z) (price : option Qc) (z : fval) : LoopState :=
  mkLoop (match s with LONG => 1 | SHORT => -1 end)%Z
         (trades st ++ [mkTrade s time price z None])
         (equity_curve st) (current_equity st).

(** The profit of closing the last trade at [price], for 100 units. *)
Definition trade_pnl (st : LoopState) (price : option Qc) : option Qc :=
  let entry :=
    match last_trade (trades st) with
    | Some t => entry_price t
    | None => None
    end in
  if (position st =? 1)%Z then omul (osub price entry) (Some units)
  else omul (osub entry price) (Some units).

Definition close_trade (st : LoopState)
  (time : Z) (price : option Qc) (z : fval) : LoopState :=
  let p := trade_pnl st price in
  mkLoop 0 (update_last (trades st) (mkExit time price z p))
         (equity_curve st) (oadd (current_equity st) p).

Definition push_equity (st : LoopState) : LoopState :=
  mkLoop (position st) (trades st)
         (equity_curve st ++ [current_equity st]) (current_equity st).

(** What the loop reads at index [i]: [spread.index[i]], [spread.iloc[i]]
    and [zscore.iloc[i]]. *)
Record Sample : Type := mkSample { s_time : Z; s_price : option Qc; s_z : fval }.

Section Strategy.

Variable entry_threshold : Qc.
Variable exit_threshold : Qc.

(** The entry and exit logic of one iteration, before the equity is
    recorded. *)
Definition decide (st : LoopState) (s : Sample) : LoopState :=
  let z := s_z s in
  if (position st =? 0)%Z then
    if flt z (Fin (- entry_threshold)) then
      open_trade LONG st (s_time s) (s_price s) z
    else if fgt z (Fin entry_threshold) then
      open_trade SHORT st (s_time s) (s_price s) z
    else st
  else
    if ((position st =? 1)%Z && fge z (Fin exit_threshold))
       || ((position st =? -1)%Z && fle z (Fin (- exit_threshold)))
    then close_trade st (s_time s) (s_price s) z
    else st.

(** One iteration of [for i in range(window, len(spread))]. *)
Definition step (st : LoopState) (s : Sample) : LoopState :=
  push_equity (decide st s).

Definition run_loop (st : LoopState) (samples : list Sample) : LoopState :=
  fold_left step samples st.

End Strategy.

Fixpoint samples_of (spread : Series) (zscore : list fval) : list Sample :=
  match spread, zscore with
  | (t, p) :: st, z :: zt => mkSample t p z :: samples_of st zt
  | _, _ => []
  end.

(** "Close any open positions", at the last observation. *)
Definition close_open_position (st : LoopState) (spread : Series)
  (zscore : list fval) : LoopState :=
  if negb (position st =? 0)%Z
     && match trades st with [] => false | _ => true end
  then
    let lastp := last spread (0%Z, None) in
    let p := trade_pnl st (snd lastp) in
    let eq := oadd (current_equity st) p in
    mkLoop (position st)
           (update_last (trades st)
              (mkExit (fst lastp) (snd lastp) (last zscore NaN) p))
           (set_last (equity_curve st) eq) eq
  else st.

(** The report; the ratios derived from the profits (win rate, averages,
    profit factor, drawdown) are not part of the embedding. *)
Record Report : Type := mkReport {
  total_trades : nat;
  winning_trades : nat;
  losing_trades : nat;
  total_pnl : option Qc;
  final_equity : option Qc;
  report_equity_curve : list (option Qc);
  report_trades : list Trade
}.

Inductive Result : Type :=
| Empty                                          (* [{}] *)
| NoTrades (equity_curve : list (option Qc))     (* [total_trades: 0] *)
| Full (r : Report).

Definition completed (ts : list Trade) : list TradeExit :=
  flat_map (fun t => match closed t with Some e => [e] | None => [] end) ts.

Definition positive (p : option Qc) : bool :=
  match p with Some v => Qcltb 0 v | None => false end.
Definition negative (p : option Qc) : bool :=
  match p with Some v => Qcltb v 0 | None => false end.

Definition run (sqrt : Qc -> Qc) (entry_threshold exit_threshold : Qc)
  (spread : Series) (window : nat) : Result :=
  if (length spread <? window)%nat then Empty
  else
    let zscore := compute_zscore sqrt (map snd spread) window in
    let st := run_loop entry_threshold exit_threshold initial_state
                (skipn window (samples_of spread zscore)) in
    let st := close_open_position st spread zscore in
    match trades st with
    | [] => NoTrades (equity_curve st)
    | _ =>
        let pnls := map pnl (completed (trades st)) in
        Full (mkReport (length (completed (trades st)))
                (length (filter positive pnls))
                (length (filter negative pnls))
                (fold_left oadd pnls (Some 0))
                (current_equity st)
                (equity_curve st)
                (trades st))
    end.

End Backtest.

(** ** config.py *)

Module Config.

(** Sampling timeframes, in seconds. *)
Definition TIMEFRAMES : list (string * Z) :=
  [ ("1s"%string, 1%Z); ("1m"%string, 60%Z); ("5m"%string, 300%Z) ].

Fixpoint timeframe_seconds (tbl : list (string * Z)) (name : string) : option Z :=
  match tbl with
  | [] => None
  | (k, v) :: t => if String.eqb k name then Some v else timeframe_seconds t name
  end.

End Config.

(** ** backend/sampler.py: resampling ticks into OHLC bars *)

Module Sampler.

Import Numeric Config.
Local Open Scope Z_scope.

(** A row of the tick frame. *)
Record Tick : Type := mkTick {
  t_timestamp : Z;        (* milliseconds since the epoch *)
  t_symbol : string;
  price : Qc;
  size : Qc
}.

(** A row of the result. *)
Record Bar : Type := mkBar {
  timestamp : Z;          (* interval start, milliseconds *)
  symbol : string;
  open : Qc;
  high : Qc;
  low : Qc;
  close : Qc;
  volume : Qc;
  trade_count : nat
}.

(** A row of the resampled frame before [dropna()]: the four price
    aggregates of an empty bin are NaN, its volume and count are zero. *)
Record RawBar : Type := mkRaw {
  r_timestamp : Z;
  r_symbol : string;
  r_open : option Qc;
  r_high : option Qc;
  r_low : option Qc;
  r_close : option Qc;
  r_volume : Qc;
  r_trade_count : nat
}.

Fixpoint minimum (l : list Qc) : option Qc :=
  match l with
  | [] => None
  | x :: t => match minimum t with
              | None => Some x
              | Some m => Some (Qcmin x m)
              end
  end.

Fixpoint maximum (l : list Qc) : option Qc :=
  match l with
  | [] => None
  | x :: t => match maximum t with
              | None => Some x
              | Some m => Some (Qcmax x m)
              end
  end.

Definition first (l : list Qc) : option Qc := hd_error l.
Definition last_ (l : list Qc) : option Qc := hd_error (rev l).

(** The start of the bin a timestamp falls in: bins of [ms] milliseconds
    are anchored at midnight, and every configured interval divides a day,
    so the start is the timestamp floored to a multiple of [ms]. *)
Definition bin_start (ms ts : Z) : Z := (ts / ms) * ms.

Definition in_bin (ms start : Z) (t : Tick) : bool :=
  bin_start ms (t_timestamp t) =? start.

(** [group[...].resample(...)] orders the rows of the group by time. *)
Definition by_time (group : list Tick) : list Tick :=
  isort (fun a b => t_timestamp a <=? t_timestamp b) group.

(** The bins of a group: every interval from the one holding the earliest
    tick to the one holding the latest, occupied or not. *)
Definition bins (ms : Z) (sorted : list Tick) : list Z :=
  match sorted with
  | [] => []
  | t0 :: _ =>
      let lo := bin_start ms (t_timestamp t0) in
      let hi := bin_start ms (t_timestamp (List.last sorted t0)) in
      map (fun k => lo + Z.of_nat k * ms)
          (seq 0 (S (Z.to_nat ((hi - lo) / ms))))
  end.

(** first / max / min / last of the prices, sum and count of the sizes. *)
Definition aggregate (sym : string) (ms start : Z) (sorted : list Tick) : RawBar :=
  let members := filter (in_bin ms start) sorted in
  let prices := map price members in
  mkRaw start sym (first prices) (maximum prices) (minimum prices) (last_ prices)
        (sum (map size members)) (length members).

Definition resample_group (sym : string) (ms : Z) (group : list Tick) : list RawBar :=
  let sorted := by_time group in
  map (fun start => aggregate sym ms start sorted) (bins ms sorted).

(** [result.dropna()] *)
Fixpoint dropna (rows : list RawBar) : list Bar :=
  match rows with
  | [] => []
  | r :: t =>
      match r_open r, r_high r, r_low r, r_close r with
      | Some o, Some h, Some l, Some c =>
          mkBar (r_timestamp r) (r_symbol r) o h l c (r_volume r) (r_trade_count r)
          :: dropna t
      | _, _, _, _ => dropna t
      end
  end.

Fixpoint distinct (l : list string) : list string :=
  match l with
  | [] => []
  | x :: t => if existsb (String.eqb x) t then distinct t else x :: distinct t
  end.

(** The keys of [ticks.groupby('symbol')], in sorted order. *)
Definition group_keys (ticks : list Tick) : list string :=
  isort String.leb (distinct (map t_symbol ticks)).

Definition resample_ticks (ticks : list Tick) (timeframe : string)
  : Outcome (list Bar) :=
  match timeframe_seconds TIMEFRAMES timeframe with
  | None => Raise "ValueError"
  | Some interval_seconds =>
      match ticks with
      | [] => Return []
      | _ =>
          let ms := interval_seconds * 1000 in
          Return (dropna
                    (flat_map
                       (fun sym =>
                          resample_group sym ms
                            (filter (fun t => String.eqb (t_symbol t) sym) ticks))
                       (group_keys ticks)))
      end
  end.

(** *** The unit of the datetime index

    [resample_ticks] above leaves the trip through datetimes implicit:
    [pd.to_datetime(ticks['timestamp'], unit='ms')] builds the index the
    bins are cut on, and [resampled.index.astype(np.int64) // 1_000_000]
    turns the bin starts back into integers.  The integer behind a
    datetime counts the units of the index's resolution, and how many such
    units make a millisecond is pandas' choice: 1_000_000 for a nanosecond
    index, 1_000 for a microsecond index.  [resample_ticks_at] is the
    routine with that number as a parameter. *)




End Sampler.

(** ** backend/storage.py: the tick and bar store *)

Module Storage.

Import Numeric Config Sampler.
Local Open Scope Z_scope.

(** The database: the [ticks] table and one bars table per timeframe, each
    in row-id order. *)
Record DataStorage : Type := mkStorage {
  ticks_table : list Tick;
  bars_tables : list (string * list Bar)
}.

Fixpoint bars_table (tables : list (string * list Bar)) (timeframe : string)
  : list Bar :=
  match tables with
  | [] => []
  | (k, rows) :: t => if String.eqb k timeframe then rows else bars_table t timeframe
  end.

Fixpoint set_bars_table (tables : list (string * list Bar)) (timeframe : string)
  (rows : list Bar) : list (string * list Bar) :=
  match tables with
  | [] => [(timeframe, rows)]
  | (k, old) :: t =>
      if String.eqb k timeframe then (k, rows) :: t
      else (k, old) :: set_bars_table t timeframe rows
  end.

Definition insert_tick (db : DataStorage) (ts : Z) (sym : string) (p s : Qc)
  : DataStorage :=
  mkStorage (ticks_table db ++ [mkTick ts sym p s]) (bars_tables db).

(** [INSERT OR REPLACE] under [UNIQUE(symbol, timestamp)]. *)
Definition upsert (rows : list Bar) (b : Bar) : list Bar :=
  filter (fun r => negb (String.eqb (symbol r) (symbol b)
                         && (timestamp r =? timestamp b))) rows
  ++ [b].

Definition insert_bars (db : DataStorage) (timeframe : string) (bars : list Bar)
  : Outcome DataStorage :=
  match timeframe_seconds TIMEFRAMES timeframe with
  | None => Raise "ValueError"
  | Some _ =>
      Return (mkStorage (ticks_table db)
                (set_bars_table (bars_tables db) timeframe
                   (fold_left upsert bars (bars_table (bars_tables db) timeframe))))
  end.

(** An optional integer argument tested by [if arg:]: [None] and [0] both
    count as not given. *)
Definition given (arg : option Z) : option Z :=
  match arg with
  | Some 0 => None
  | _ => arg
  end.

Section Query.

Variable Row : Type.
Variable row_symbol : Row -> string.
Variable row_timestamp : Row -> Z.

(** [WHERE symbol = ? AND timestamp >= ? AND timestamp <= ?] *)
Definition where_ (sym : string) (start_time end_time : option Z) (r : Row) : bool :=
  String.eqb (row_symbol r) sym
  && match given start_time with
     | Some s => s <=? row_timestamp r
     | None => true
     end
  && match given end_time with
     | Some e => row_timestamp r <=? e
     | None => true
     end.

(** [ORDER BY timestamp DESC] *)
Definition order_by_timestamp_desc (rows : list Row) : list Row :=
  isort (fun a b => row_timestamp b <=? row_timestamp a) rows.

(** [LIMIT ?], added only [if limit:]; SQLite reads a negative limit as no
    limit. *)
Definition limit_ (limit : option Z) (rows : list Row) : list Row :=
  match given limit with
  | Some n => if n <? 0 then rows else firstn (Z.to_nat n) rows
  | None => rows
  end.

(** [df.sort_values('timestamp')] *)
Definition sort_values (rows : list Row) : list Row :=
  isort (fun a b => row_timestamp a <=? row_timestamp b) rows.

Definition query (table : list Row) (sym : string)
  (start_time end_time limit : option Z) : list Row :=
  sort_values
    (limit_ limit
       (order_by_timestamp_desc (filter (where_ sym start_time end_time) table))).

End Query.

Arguments where_ {Row} row_symbol row_timestamp sym start_time end_time r.
Arguments order_by_timestamp_desc {Row} row_timestamp rows.
Arguments limit_ {Row} limit rows.
Arguments sort_values {Row} row_timestamp rows.
Arguments query {Row} row_symbol row_timestamp table sym start_time end_time limit.

Definition get_ticks (db : DataStorage) (sym : string)
  (start_time end_time limit : option Z) : list Tick :=
  query t_symbol t_timestamp (ticks_table db) sym start_time end_time limit.

Definition get_bars (db : DataStorage) (sym timeframe : string)
  (start_time end_time limit : option Z) : Outcome (list Bar) :=
  match timeframe_seconds TIMEFRAMES timeframe with
  | None => Raise "ValueError"
  | Some _ =>
      Return (query symbol timestamp (bars_table (bars_tables db) timeframe)
                sym start_time end_time limit)
  end.

End Storage.

(** ** backend/alerts.py: alert rules and their manager *)

Module Alerts.

Import Py.

Record AlertRule : Type := mkRule {
  rule_id : string;
  name : string;
  condition : string;
  symbol : option string;
  enabled : bool;
  last_triggered : option Z;
  trigger_count : nat
}.

(** [AlertRule(rule_id, name, condition, symbol, enabled)] *)
Definition new_rule (id nm cond : string) (sym : option string) (en : bool)
  : AlertRule :=
  mkRule id nm cond sym en None 0.

(** The globals handed to [eval]. *)
Definition eval_globals : Dict := [("__builtins__"%string, VEmptyDict)].

(** [self.symbol and ...]: a filter of [None] or of the empty string is
    falsy. *)
Definition symbol_filter (r : AlertRule) : option string :=
  match symbol r with
  | Some s => if String.eqb s "" then None else Some s
  | None => None
  end.

(** [context.get('symbol') != s] *)
Definition symbol_differs (context : Dict) (s : string) : bool :=
  match get context "symbol" with
  | Some (VStr s') => negb (String.eqb s' s)
  | _ => true
  end.

(** [rule.trigger()] at time [now]. *)
Definition trigger (r : AlertRule) (now : Z) : AlertRule :=
  mkRule (rule_id r) (name r) (condition r) (symbol r) (enabled r)
         (Some now) (S (trigger_count r)).

(** An entry of [active_alerts]. *)
Record AlertInfo : Type := mkAlert {
  a_rule_id : string;
  a_name : string;
  a_symbol : PyVal;
  a_timestamp : Z;
  a_context : Dict
}.

(** The manager: the rule mapping in insertion order, the capped history,
    whether a callback is registered, and the calls made to it. *)
Record AlertManager : Type := mkManager {
  rules : list (string * AlertRule);
  has_callback : bool;
  active_alerts : list AlertInfo;
  callback_calls : list (AlertRule * Dict)
}.

Definition new_manager (callback : bool) : AlertManager :=
  mkManager [] callback [] [].

Fixpoint assign (rs : list (string * AlertRule)) (k : string) (r : AlertRule)
  : list (string * AlertRule) :=
  match rs with
  | [] => [(k, r)]
  | (k', r') :: t =>
      if String.eqb k' k then (k', r) :: t else (k', r') :: assign t k r
  end.

Definition add_rule (m : AlertManager) (r : AlertRule) : AlertManager :=
  mkManager (assign (rules m) (rule_id r) r) (has_callback m)
            (active_alerts m) (callback_calls m).

Definition remove_rule (m : AlertManager) (id : string) : AlertManager :=
  mkManager (filter (fun kr => negb (String.eqb (fst kr) id)) (rules m))
            (has_callback m) (active_alerts m) (callback_calls m).

(** One keyword argument of [update_rule]. *)
Inductive Update : Type :=
| SetName (s : string)
| SetCondition (s : string)
| SetSymbol (s : option string)
| SetEnabled (b : bool).

Definition setattr (r : AlertRule) (u : Update) : AlertRule :=
  match u with
  | SetName s =>
      mkRule (rule_id r) s (condition r) (symbol r) (enabled r)
             (last_triggered r) (trigger_count r)
  | SetCondition s =>
      mkRule (rule_id r) (name r) s (symbol r) (enabled r)
             (last_triggered r) (trigger_count r)
  | SetSymbol s =>
      mkRule (rule_id r) (name r) (condition r) s (enabled r)
             (last_triggered r) (trigger_count r)
  | SetEnabled b =>
      mkRule (rule_id r) (name r) (condition r) (symbol r) b
             (last_triggered r) (trigger_count r)
  end.

Definition update_rule (m : AlertManager) (id : string) (kwargs : list Update)
  : AlertManager :=
  mkManager
    (map (fun kr => if String.eqb (fst kr) id
                    then (fst kr, fold_left setattr kwargs (snd kr)) else kr)
         (rules m))
    (has_callback m) (active_alerts m) (callback_calls m).

Definition get_rules (m : AlertManager) : list AlertRule := map snd (rules m).

(** Keep only the last 100 alerts: one is popped from the front when the
    list grows past 100. *)
Definition cap (alerts : list AlertInfo) : list AlertInfo :=
  if (100 <? length alerts)%nat then tl alerts else alerts.

Section Eval.

(** Python's [eval(source, globals, locals)]: the value, or [None] when it
    raises, and the locals mapping as the evaluation leaves it. *)
Variable py_eval : string -> Dict -> Dict -> option PyVal * Dict.

Definition evaluate (r : AlertRule) (context : Dict) : bool * Dict :=
  if negb (enabled r) then (false, context)
  else
    match symbol_filter r with
    | Some s =>
        if symbol_differs context s then (false, context)
        else
          match py_eval (condition r) eval_globals context with
          | (Some v, context') => (truth v, context')
          | (None, context') => (false, context')
          end
    | None =>
        match py_eval (condition r) eval_globals context with
        | (Some v, context') => (truth v, context')
        | (None, context') => (false, context')
        end
    end.

(** The body of [for rule in self.rules.values()] over the remaining
    rules, at time [now]. *)
Fixpoint check_rules (rs : list (string * AlertRule))
  (has_cb : bool) (alerts : list AlertInfo) (calls : list (AlertRule * Dict))
  (context : Dict) (now : Z)
  : list (string * AlertRule) * list AlertInfo * list (AlertRule * Dict) * Dict :=
  match rs with
  | [] => ([], alerts, calls, context)
  | (k, r) :: rest =>
      let '(fired, context') := evaluate r context in
      if fired then
        let r' := trigger r now in
        let info :=
          mkAlert (rule_id r') (name r')
                  (match get context' "symbol" with
                   | Some v => v
                   | None => VStr "N/A"
                   end)
                  now context' in
        let alerts' := cap (alerts ++ [info]) in
        let calls' := if has_cb then calls ++ [(r', context')] else calls in
        let '(rest', a, c, ctx) :=
          check_rules rest has_cb alerts' calls' context' now in
        ((k, r') :: rest', a, c, ctx)
      else
        let '(rest', a, c, ctx) :=
          check_rules rest has_cb alerts calls context' now in
        ((k, r) :: rest', a, c, ctx)
  end.

Definition check_alerts (m : AlertManager) (context : Dict) (now : Z)
  : AlertManager * Dict :=
  let '(rs, a, c, ctx) :=
    check_rules (rules m) (has_callback m) (active_alerts m)
                (callback_calls m) context now in
  (mkManager rs (has_callback m) a c, ctx).

End Eval.

End Alerts.

(** ** backend/data_processor.py: the pipeline's life cycle *)

Module Processor.

Import Config.

Inductive Level : Type := INFO | WARNING | ERROR.

(** [BinanceWebSocketClient]: its running flag, whether the connection
    object [ws] exists yet, and the calls made to [ws.close()]. *)
Record WsClient : Type := mkWs {
  ws_running : bool;
  ws : bool;
  ws_closed : nat
}.

(** A thread handed to [threading.Thread(...).start()]. *)
Inductive Worker : Type :=
| ConnectWorker
| ResampleWorker (timeframe : string) (interval : Z)
| AlertWorker.

Record DataProcessor : Type := mkProcessor {
  symbols : list string;
  has_alert_manager : bool;
  running : bool;
  ws_client : option WsClient;
  resampling_threads : list (string * Worker);
  started : list Worker;
  log : list (Level * string)
}.

(** [DataProcessor(symbols, storage, alert_manager)] *)
Definition new_processor (syms : list string) (alert_manager : bool)
  : DataProcessor :=
  mkProcessor syms alert_manager false None [] [] [].

Fixpoint assign_thread (d : list (string * Worker)) (k : string) (w : Worker)
  : list (string * Worker) :=
  match d with
  | [] => [(k, w)]
  | (k', w') :: t =>
      if String.eqb k' k then (k', w) :: t else (k', w') :: assign_thread t k w
  end.

(** [BinanceWebSocketClient.stop] *)
Definition ws_stop (c : WsClient) : WsClient :=
  mkWs false (ws c) (if ws c then S (ws_closed c) else ws_closed c).

Definition start (p : DataProcessor) : DataProcessor :=
  if running p then
    mkProcessor (symbols p) (has_alert_manager p) (running p) (ws_client p)
      (resampling_threads p) (started p)
      (log p ++ [(WARNING, "Data processor already running"%string)])
  else
    let resamplers := map (fun tf => ResampleWorker (fst tf) (snd tf)) TIMEFRAMES in
    mkProcessor (symbols p) (has_alert_manager p) true
      (Some (mkWs true false 0))
      (fold_left (fun d tf => assign_thread d (fst tf) (ResampleWorker (fst tf) (snd tf)))
                 TIMEFRAMES (resampling_threads p))
      (started p ++ [ConnectWorker] ++ resamplers
       ++ (if has_alert_manager p then [AlertWorker] else []))
      (log p ++ [(INFO, "WebSocket client started"%string);
                 (INFO, "Data processor started"%string)]).

Definition stop (p : DataProcessor) : DataProcessor :=
  mkProcessor (symbols p) (has_alert_manager p) false
    (option_map ws_stop (ws_client p))
    (resampling_threads p) (started p)
    (log p
     ++ (match ws_client p with
         | Some _ => [(INFO, "WebSocket client stopped"%string)]
         | None => []
         end)
     ++ [(INFO, "Data processor stopped"%string)]).

End Processor.

(** ** backend/analytics.py: the spread *)

Module Spread.

Import Numeric Frames.
Local Open Scope Qc_scope.

(** [compute_spread(price1, price2, hedge_ratio)]: the hedged spread
    [price1 - hedge_ratio * price2] over the aligned frame, or the simple
    spread [price1 - price2] when no ratio is given. *)
Definition compute_spread (price1 price2 : Series) (hedge_ratio : option Qc)
  : Outcome (list (Z * Qc)) :=
  if (length price1 =? 0)%nat || (length price2 =? 0)%nat then Return []
  else
    match aligned price1 price2 with
    | None => Raise "ValueError"
    | Some rows =>
        match rows with
        | [] => Return []
        | _ =>
            Return (map (fun r =>
                           (o_label r,
                            match hedge_ratio with
                            | Some h => o_a r - h * o_b r
                            | None => o_a r - o_b r
                            end))
                        rows)
        end
    end.

End Spread.

(** ** backend/backtest.py: the maximum drawdown *)

Module Drawdown.

Import Numeric.
Local Open Scope Qc_scope.

(** The loop of [_calculate_max_drawdown] over a curve of finite numbers:
    the running peak and the largest percentage drop from it.  Dividing by
    a peak of zero raises. *)
Fixpoint drawdown_loop (peak max_dd : Qc) (equity_curve : list Qc) : Outcome Qc :=
  match equity_curve with
  | [] => Return max_dd
  | equity :: rest =>
      let peak' := if Qcltb peak equity then equity else peak in
      if Qceqb peak' 0 then Raise "ZeroDivisionError"
      else
        let dd := (peak' - equity) / peak' * qz 100 in
        let max_dd' := if Qcltb max_dd dd then dd else max_dd in
        drawdown_loop peak' max_dd' rest
  end.

Definition calculate_max_drawdown (equity_curve : list Qc) : Outcome Qc :=
  match equity_curve with
  | [] => Return 0
  | first :: _ => drawdown_loop first 0 equity_curve
  end.

End Drawdown.

(** ** backend/storage.py: the other reads *)

Module StorageReads.

Import Numeric Config Sampler Storage.
Local Open Scope Z_scope.

Definition of_symbol (sym : string) (t : Tick) : bool := String.eqb (t_symbol t) sym.

(** [SELECT price FROM ticks WHERE symbol = ? ORDER BY timestamp DESC
    LIMIT 1], then [fetchone()]. *)
Definition get_latest_price (db : DataStorage) (sym : string) : option Qc :=
  match order_by_timestamp_desc t_timestamp (filter (of_symbol sym) (ticks_table db)) with
  | [] => None
  | t :: _ => Some (price t)
  end.

(** [SELECT DISTINCT symbol FROM ticks] *)
Definition get_symbols (db : DataStorage) : list string :=
  distinct (map t_symbol (ticks_table db)).

(** [SELECT MIN(timestamp), MAX(timestamp) FROM ticks WHERE symbol = ?]:
    both are NULL when the symbol has no tick. *)
Definition get_data_range (db : DataStorage) (sym : string) : option Z * option Z :=
  match map t_timestamp (filter (of_symbol sym) (ticks_table db)) with
  | [] => (None, None)
  | t :: rest => (Some (fold_left Z.min rest t), Some (fold_left Z.max rest t))
  end.

End StorageReads.

(* ===================================================================== *)
(** * Part II: properties                                                 *)
(* ===================================================================== *)

(** ** Sorting facts *)

Section SortingFacts.
Variable A : Type.
Variable le : A -> A -> bool.

Lemma insert_sorted_perm (a : A) (l : list A) :
  Permutation (insert_sorted le a l) (a :: l).
Proof.
  induction l as [| b t IH]; simpl.
  - apply Permutation_refl.
  - destruct (le a b).
    + apply Permutation_refl.
    + eapply perm_trans; [apply perm_skip, IH | apply perm_swap].
Qed.

Lemma isort_perm (l : list A) : Permutation (isort le l) l.
Proof.
  induction l as [| a t IH]; simpl.
  - apply perm_nil.
  - eapply perm_trans; [apply insert_sorted_perm | apply perm_skip, IH].
Qed.

Hypothesis le_total : forall a b, le a b = true \/ le b a = true.
Hypothesis le_trans : forall a b c, le a b = true -> le b c = true -> le a c = true.

Lemma insert_sorted_sorted (a : A) (l : list A) :
  StronglySorted (fun x y => le x y = true) l ->
  StronglySorted (fun x y => le x y = true) (insert_sorted le a l).
Proof.
  induction 1 as [| b t Hs IH Hb]; simpl.
  - constructor; [constructor | constructor].
  - destruct (le a b) eqn:Hab.
    + constructor.
      * constructor; assumption.
      * constructor; [assumption |].
        rewrite Forall_forall in *. intros c Hc. eapply le_trans; eauto.
    + constructor; [assumption |].
      rewrite Forall_forall in *. intros c Hc.
      apply (Permutation_in _ (insert_sorted_perm a t)) in Hc.
      destruct Hc as [<- | Hc]; [| auto].
      destruct (le_total a b) as [E | E]; congruence.
Qed.

Lemma isort_sorted (l : list A) :
  StronglySorted (fun x y => le x y = true) (isort le l).
Proof.
  induction l as [| a t IH]; simpl.
  - constructor.
  - apply insert_sorted_sorted, IH.
Qed.

End SortingFacts.

(** ** Frames: what survives alignment *)

Module FramesFacts.

Import Numeric Frames.

Lemma existsb_eqb_In (x : Z) (l : list Z) :
  existsb (Z.eqb x) l = true <-> In x l.
Proof.
  rewrite existsb_exists. split.
  - intros [y [Hy E]]. apply Z.eqb_eq in E. subst. assumption.
  - intros H. exists x. split; [assumption | apply Z.eqb_refl].
Qed.


Lemma nodupb_NoDup (l : list Z) : nodupb l = true <-> NoDup l.
Proof.
  induction l as [| x t IH]; simpl.
  - split; [constructor | reflexivity].
  - rewrite andb_true_iff, IH, negb_true_iff. split.
    + intros [Hx Ht]. constructor; [| exact Ht].
      intros Hin. apply existsb_eqb_In in Hin. congruence.
    + intros H. inversion H as [| x' t' Hx Ht]; subst. split; [| exact Ht].
      destruct (existsb (Z.eqb x) t) eqn:E; [| reflexivity].
      apply existsb_eqb_In in E. contradiction.
Qed.






End FramesFacts.

(** ** The Kalman hedge ratio *)

Module KalmanFacts.

Import Frames Frames64 Kalman FramesFacts.
Local Open Scope float_scope.


(** *** The aligned frame of two float series *)







(** *** The filter loop *)







(** A concrete run: four timestamps, one missing price. *)
Definition demo_prices1 : Series64 :=
  [(0%Z, 10); (1%Z, 11); (2%Z, nan); (3%Z, 12)].
Definition demo_prices2 : Series64 :=
  [(0%Z, 5); (1%Z, 5); (2%Z, 6); (3%Z, 6)].


(** The run in numbers, as binary64 arithmetic gives them. *)
Example kalman_demo_run :
  compute_kalman_hedge_ratio demo_prices1 demo_prices2 None None None
  = Return ([(0%Z, 1); (1%Z, 2.195266272189349); (3%Z, 2.0323592861345361)],
            [(0%Z, 5); (1%Z, 0.023668639053255447); (3%Z, -0.19415571680721655)]).
Proof. vm_compute. reflexivity. Qed.

(** With both variances zero the first update leaves a covariance of zero,
    and the second divides zero by zero: the betas are NaN from there on. *)
Example kalman_zero_variances :
  compute_kalman_hedge_ratio [(0%Z, 1); (1%Z, 2); (2%Z, 3)]
                             [(0%Z, 1); (1%Z, 2); (2%Z, 3)]
                             None (Some 0) (Some 0)
  = Return ([(0%Z, 1); (1%Z, 1); (2%Z, nan)], [(0%Z, 0); (1%Z, 0); (2%Z, nan)]).
Proof. vm_compute. reflexivity. Qed.


End KalmanFacts.

(** ** Rolling windows and the z-score *)

Module ZScoreFacts.

Import Numeric Frames Analytics.
Local Open Scope Qc_scope.

(** The z-score the design document gives for one full window: the
    observation minus the window mean, over the window's sample standard
    deviation; NaN when the window holds a missing value. *)
Definition zscore_of_window (sqrt : Qc -> Qc) (x : option Qc) (win : Values) : fval :=
  match present win with
  | Some obs => odiv (osub x (mean obs)) (std sqrt obs)
  | None => NaN
  end.

(** The observations at positions [i-w+1 .. i]. *)
Definition window_at (w : nat) (series : Values) (i : nat) : Values :=
  firstn w (skipn (i + 1 - w) series).

Lemma last_n_length {A : Type} (w : nat) (l : list A) :
  length (last_n w l) = Nat.min w (length l).
Proof. unfold last_n. rewrite length_skipn. lia. Qed.

Lemma last_n_app_last_n {A : Type} (w : nat) (l m : list A) :
  last_n w (last_n w l ++ m) = last_n w (l ++ m).
Proof.
  unfold last_n at 1 3. rewrite !length_app, last_n_length.
  destruct (Nat.le_gt_cases (length l) w) as [Hle | Hgt].
  - unfold last_n. replace (length l - w)%nat with 0%nat by lia.
    simpl. f_equal. lia.
  - unfold last_n.
    replace (Nat.min w (length l) + length m - w)%nat with (length m) by lia.
    replace (length l + length m - w)%nat
      with (length m + (length l - w))%nat by lia.
    rewrite <- skipn_skipn. f_equal.
    rewrite (skipn_app (length l - w) l m).
    replace (length l - w - length l)%nat with 0%nat by lia. reflexivity.
Qed.

Lemma last_n_prefix {A : Type} (w i : nat) (xs : list A) :
  (i < length xs)%nat -> (w <= S i)%nat ->
  last_n w (firstn (S i) xs) = firstn w (skipn (S i - w) xs).
Proof.
  intros Hi Hw. unfold last_n. rewrite length_firstn.
  replace (Nat.min (S i) (length xs)) with (S i) by lia.
  rewrite skipn_firstn_comm. f_equal. lia.
Qed.

Section RollingFacts.
Variable w : nat.
Variable agg : list Qc -> option Qc.

Definition emit (buf : Values) : option Qc :=
  if (length buf =? w)%nat then
    match present buf with Some win => agg win | None => None end
  else None.

Lemma rolling_from_length (xs : Values) : forall buf,
  length (rolling_from w agg buf xs) = length xs.
Proof.
  induction xs as [| x rest IH]; intros buf; simpl; [reflexivity |].
  rewrite IH. reflexivity.
Qed.

(** After [i+1] steps the buffer is the tail of everything seen so far. *)
Lemma rolling_from_nth (xs : Values) : forall buf pre i,
  buf = last_n w pre ->
  (i < length xs)%nat ->
  nth i (rolling_from w agg buf xs) None
  = emit (last_n w (pre ++ firstn (S i) xs)).
Proof.
  induction xs as [| x rest IH]; intros buf pre i Hbuf Hi; simpl in Hi; [lia |].
  assert (last_n w (buf ++ [x]) = last_n w (pre ++ [x])) as Hb.
  { subst buf. apply last_n_app_last_n. }
  destruct i as [| i].
  - simpl. rewrite Hb. reflexivity.
  - simpl rolling_from. cbn [nth].
    rewrite (IH _ (pre ++ [x]) i Hb) by lia.
    rewrite <- app_assoc. reflexivity.
Qed.

Lemma rolling_nth (xs : Values) (i : nat) :
  (i < length xs)%nat ->
  nth i (rolling w agg xs) None
  = if (S i <? w)%nat then None
    else match present (window_at w xs i) with
         | Some win => agg win
         | None => None
         end.
Proof.
  intros Hi. unfold rolling.
  rewrite (rolling_from_nth xs [] [] i eq_refl Hi). rewrite app_nil_l.
  unfold emit. destruct (S i <? w)%nat eqn:E.
  - apply Nat.ltb_lt in E.
    replace (length (last_n w (firstn (S i) xs)) =? w)%nat with false; [reflexivity |].
    symmetry. apply Nat.eqb_neq. rewrite last_n_length, length_firstn. lia.
  - apply Nat.ltb_ge in E.
    rewrite last_n_prefix by assumption.
    unfold window_at. replace (i + 1 - w)%nat with (S i - w)%nat by lia.
    replace (length (firstn w (skipn (S i - w) xs)) =? w)%nat with true; [reflexivity |].
    symmetry. apply Nat.eqb_eq. rewrite length_firstn, length_skipn. lia.
Qed.

End RollingFacts.

Lemma map2_length {A B C : Type} (f : A -> B -> C) (l1 : list A) : forall l2,
  length (map2 f l1 l2) = Nat.min (length l1) (length l2).
Proof.
  induction l1 as [| a t IH]; intros [| b t2]; simpl; auto.
Qed.

Lemma map2_nth {A B C : Type} (f : A -> B -> C) (da : A) (db : B) (dc : C)
  (l1 : list A) : forall l2 i,
  (i < length l1)%nat -> (i < length l2)%nat ->
  nth i (map2 f l1 l2) dc = f (nth i l1 da) (nth i l2 db).
Proof.
  induction l1 as [| a t IH]; intros [| b t2] i H1 H2; simpl in *; try lia.
  destruct i as [| i]; [reflexivity | apply IH; lia].
Qed.

Lemma window_at_ext (w : nat) (s1 s2 : Values) (i : nat) :
  (w <= i + 1)%nat -> (i < length s1)%nat -> (i < length s2)%nat ->
  (forall j, (i + 1 - w <= j <= i)%nat -> nth j s1 None = nth j s2 None) ->
  window_at w s1 i = window_at w s2 i.
Proof.
  intros Hw H1 H2 Hagree. unfold window_at.
  apply (nth_ext _ _ None None).
  - rewrite !length_firstn, !length_skipn. lia.
  - intros k Hk. rewrite length_firstn, length_skipn in Hk.
    rewrite !nth_firstn.
    destruct (k <? w)%nat eqn:E; [| reflexivity].
    apply Nat.ltb_lt in E.
    rewrite !nth_skipn. apply Hagree. lia.
Qed.

(** The value of [compute_zscore] at one position of a series that is long
    enough. *)
Lemma compute_zscore_nth (sqrt : Qc -> Qc) (series : Values) (w i : nat) :
  (w <= length series)%nat -> (i < length series)%nat ->
  nth i (compute_zscore sqrt series w) (Fin 0)
  = if (S i <? w)%nat then NaN
    else zscore_of_window sqrt (nth i series None) (window_at w series i).
Proof.
  intros Hw Hi. unfold compute_zscore.
  replace (length series <? w)%nat with false by (symmetry; apply Nat.ltb_ge; lia).
  rewrite (map2_nth odiv None None (Fin 0)).
  2: { rewrite map2_length. unfold rolling. rewrite rolling_from_length. lia. }
  2: { unfold rolling. rewrite rolling_from_length. lia. }
  rewrite (map2_nth osub None None None).
  2: lia.
  2: { unfold rolling. rewrite rolling_from_length. lia. }
  rewrite !rolling_nth by assumption.
  unfold zscore_of_window.
  destruct (S i <? w)%nat.
  - destruct (nth i series None); reflexivity.
  - destruct (present (window_at w series i)); [reflexivity |].
    destruct (nth i series None); reflexivity.
Qed.

Lemma compute_zscore_length (sqrt : Qc -> Qc) (series : Values) (w : nat) :
  (w <= length series)%nat ->
  length (compute_zscore sqrt series w) = length series.
Proof.
  intros Hw. unfold compute_zscore.
  replace (length series <? w)%nat with false by (symmetry; apply Nat.ltb_ge; lia).
  rewrite !map2_length. unfold rolling. rewrite !rolling_from_length. lia.
Qed.

End ZScoreFacts.

(** ** The rolling z-score in binary64 *)

Module Rolling64Facts.

Import Analytics Rolling64 ZScoreFacts.
Local Open Scope float_scope.

(** *** NaN propagates *)




(** *** Loops over a range *)








(** *** The count of observations in the running state *)





Section Counts.

Variable values : list float.







End Counts.



(** *** The state depends on the observations seen so far *)

Section Prefix.

Variables a b : list float.





End Prefix.

(** *** The z-score, position by position *)









(** The z-scores of two series in numbers. *)
Example zscore_of_run :
  compute_zscore64 [1; 2; 4; 7; 11] 3
  = [nan; nan; 1.0910894511799618; 1.0596258856520351; 1.0440737953277488].
Proof. vm_compute. reflexivity. Qed.

Example zscore_after_large_value :
  compute_zscore64 [1e9; 0; 1; 2; 3] 3
  = [nan; nan; -0.57735026832360037; 1.1547004924955764; 1.1547004007282446].
Proof. vm_compute. reflexivity. Qed.


End Rolling64Facts.

(** ** Too few observations *)

Module GatedFacts.

Import Numeric Frames Py Analytics.

(** When pandas can put two series in one frame: their indexes are
    identical, or neither carries a duplicated label. *)
Definition frameable (y x : Series) : Prop :=
  labels y = labels x \/ (NoDup (labels y) /\ NoDup (labels x)).

Lemma aligned_frameable (y x : Series) :
  frameable y x <-> exists rows, aligned y x = Some rows.
Proof.
  unfold frameable, aligned, DataFrame.
  destruct (list_eq_dec Z.eq_dec (labels y) (labels x)) as [E | E].
  - split; [intros _; eexists; reflexivity | intros _; left; exact E].
  - destruct (nodupb (labels y)) eqn:Ey; destruct (nodupb (labels x)) eqn:Ex; simpl.
    + split; [intros _; eexists; reflexivity |].
      intros _. right. split; apply FramesFacts.nodupb_NoDup; assumption.
    + split; [| intros [rows H]; discriminate].
      intros [H | [_ H]]; [contradiction |].
      apply FramesFacts.nodupb_NoDup in H. congruence.
    + split; [| intros [rows H]; discriminate].
      intros [H | [H _]]; [contradiction |].
      apply FramesFacts.nodupb_NoDup in H. congruence.
    + split; [| intros [rows H]; discriminate].
      intros [H | [H _]]; [contradiction |].
      apply FramesFacts.nodupb_NoDup in H. congruence.
Qed.

(** C7, as the routines implement it.  With too few observations the
    analytics routines return the empty dictionary: fewer than 2 prices for
    the price statistics, fewer than 10 observations for the stationarity
    test, and, for the OLS and robust hedge ratios, fewer than 2 entries in
    either series, series of different lengths, or fewer than 2 rows left
    in the aligned frame.  This holds whatever the delegated numerical
    routines do.  The aligned frame exists exactly when the two indexes are
    identical or free of duplicated labels; otherwise, for two series that
    pass the length guards, the frame constructor's error leaves both
    hedge-ratio routines. *)
Theorem insufficient_observations_empty :
  forall (stat : string -> Values -> PyVal)
         (pct_change_dropna : Values -> Values)
         (ols_fit huber_fit theilsen_fit : list Obs -> option Dict)
         (adfuller : Values -> option Dict),
    (forall prices, (length prices < 2)%nat ->
       compute_price_stats stat pct_change_dropna prices = Return []) /\
    (forall series, (length series < 10)%nat ->
       compute_adf_test adfuller series = Return []) /\
    (forall y x method,
       (length y < 2)%nat \/ (length x < 2)%nat \/ length y <> length x ->
       compute_ols_regression ols_fit y x = Return [] /\
       compute_robust_regression huber_fit theilsen_fit y x method = Return []) /\
    (forall y x method,
       frameable y x ->
       exists rows,
         aligned y x = Some rows /\
         ((length rows < 2)%nat ->
          compute_ols_regression ols_fit y x = Return [] /\
          compute_robust_regression huber_fit theilsen_fit y x method = Return [])) /\
    (forall y x method,
       (2 <= length y)%nat -> length y = length x -> ~ frameable y x ->
       compute_ols_regression ols_fit y x = Raise "ValueError" /\
       compute_robust_regression huber_fit theilsen_fit y x method
       = Raise "ValueError").
Proof.
  intros stat pct ols huber theil adf.
  split; [| split; [| split; [| split]]].
  - intros prices H. unfold compute_price_stats.
    apply Nat.ltb_lt in H. rewrite H. reflexivity.
  - intros series H. unfold compute_adf_test.
    apply Nat.ltb_lt in H. rewrite H. reflexivity.
  - intros y x method H.
    unfold compute_ols_regression, compute_robust_regression.
    destruct H as [H | [H | H]].
    + apply Nat.ltb_lt in H. rewrite H. split; reflexivity.
    + apply Nat.ltb_lt in H. rewrite H, orb_true_r. split; reflexivity.
    + apply Nat.eqb_neq in H. rewrite H, orb_true_r. split; reflexivity.
  - intros y x method Hf. apply aligned_frameable in Hf. destruct Hf as [rows Hal].
    exists rows. split; [exact Hal |]. intros Hn.
    unfold compute_ols_regression, compute_robust_regression. rewrite Hal.
    apply Nat.ltb_lt in Hn. rewrite Hn.
    destruct (_ || _ || _); split; reflexivity.
  - intros y x method Hy Hlen Hnf.
    assert (aligned y x = None) as Hal.
    { destruct (aligned y x) as [rows |] eqn:E; [| reflexivity].
      exfalso. apply Hnf, aligned_frameable. exists rows. exact E. }
    unfold compute_ols_regression, compute_robust_regression. rewrite Hal.
    assert ((length y <? 2)%nat = false) as -> by (apply Nat.ltb_ge; exact Hy).
    assert ((length x <? 2)%nat = false) as -> by (apply Nat.ltb_ge; lia).
    assert ((length y =? length x)%nat = true) as -> by (apply Nat.eqb_eq; exact Hlen).
    split; reflexivity.
Qed.

Lemma insufficient_observations_empty_witness :
  let stat := fun (_ : string) (_ : Values) => VNone in
  let fit := fun (_ : list Obs) => @None Dict in
  let adf := fun (_ : Values) => @None Dict in
  compute_price_stats stat (fun xs => xs) [Some (qz 1)] = Return [] /\
  compute_adf_test adf (repeat (Some (qz 1)) 9) = Return [] /\
  compute_ols_regression fit [(0%Z, Some (qz 1)); (1%Z, None)]
                             [(0%Z, Some (qz 2)); (1%Z, Some (qz 3))] = Return [] /\
  compute_robust_regression fit fit [(0%Z, Some (qz 1)); (1%Z, Some (qz 2))]
                                    [(0%Z, Some (qz 2))] "huber" = Return [].
Proof.
  intros stat fit adf.
  destruct (insufficient_observations_empty stat (fun xs => xs) fit fit fit adf)
    as (Hstats & Hadf & Hguard & Hreg & _).
  split; [apply Hstats; simpl; lia |].
  split; [apply Hadf; simpl; lia |].
  split.
  - destruct (Hreg [(0%Z, Some (qz 1)); (1%Z, None)]
                   [(0%Z, Some (qz 2)); (1%Z, Some (qz 3))] ""%string
                   (or_introl eq_refl)) as (rows & Hal & H).
    apply H. injection Hal as <-. simpl. lia.
  - apply (Hguard [(0%Z, Some (qz 1)); (1%Z, Some (qz 2))] [(0%Z, Some (qz 2))]
             "huber"%string).
    right. left. simpl. lia.
Defined.

(** The claim as worded fails for two series that pandas cannot put in one
    frame: the first carries the label 0 twice, the indexes differ and no
    label is shared, so that no aligned row exists, and both routines raise
    instead of returning the empty dictionary. *)
Lemma duplicated_labels_raise :
  let y : Series := [(0%Z, Some (qz 1)); (0%Z, Some (qz 2))] in
  let x : Series := [(1%Z, Some (qz 1)); (2%Z, Some (qz 2))] in
  let fit := fun (_ : list Obs) => @None Dict in
  (forall l, In l (labels y) -> ~ In l (labels x)) /\
  compute_ols_regression fit y x = Raise "ValueError" /\
  compute_ols_regression fit y x <> Return [] /\
  compute_robust_regression fit fit y x "huber" = Raise "ValueError".
Proof.
  cbv zeta. split; [| split; [reflexivity | split; [discriminate | reflexivity]]].
  simpl. intros l [<- | [<- | []]] [H | [H | []]]; discriminate.
Qed.

End GatedFacts.

(** ** Order facts on numbers *)

Module NumericFacts.

Import Numeric.
Local Open Scope Qc_scope.

Lemma Qcleb_le (a b : Qc) : Qcleb a b = true <-> a <= b.
Proof.
  unfold Qcleb. rewrite Qcle_alt.
  destruct (a ?= b); split; intros H; try reflexivity; try discriminate;
    congruence.
Qed.

Lemma Qcltb_lt (a b : Qc) : Qcltb a b = true <-> a < b.
Proof.
  unfold Qcltb. rewrite Qclt_alt.
  destruct (a ?= b); split; intros H; try reflexivity; discriminate.
Qed.

Lemma Qceqb_eq (a b : Qc) : Qceqb a b = true <-> a = b.
Proof.
  unfold Qceqb. rewrite Qceq_alt.
  destruct (a ?= b); split; intros H; try reflexivity; discriminate.
Qed.

Lemma Qcleb_false_lt (a b : Qc) : b < a -> Qcleb a b = false.
Proof.
  intros H. destruct (Qcleb a b) eqn:E; [| reflexivity].
  apply Qcleb_le in E. exfalso. eapply Qclt_not_le; eauto.
Qed.

Lemma Qcltb_false_le (a b : Qc) : b <= a -> Qcltb a b = false.
Proof.
  intros H. destruct (Qcltb a b) eqn:E; [| reflexivity].
  apply Qcltb_lt in E. exfalso. eapply Qclt_not_le; eauto.
Qed.

Lemma Qcleb_refl (a : Qc) : Qcleb a a = true.
Proof. apply Qcleb_le, Qcle_refl. Qed.

Lemma Qcleb_total (a b : Qc) : Qcleb a b = true \/ Qcleb b a = true.
Proof.
  destruct (Qclt_le_dec a b) as [H | H].
  - left. apply Qcleb_le, Qclt_le_weak, H.
  - right. apply Qcleb_le, H.
Qed.

Lemma Qcleb_trans (a b c : Qc) :
  Qcleb a b = true -> Qcleb b c = true -> Qcleb a c = true.
Proof.
  rewrite !Qcleb_le. apply Qcle_trans.
Qed.

Lemma Qcmin_le_l (a b : Qc) : Qcmin a b <= a.
Proof.
  unfold Qcmin. destruct (Qcleb a b) eqn:E.
  - apply Qcle_refl.
  - destruct (Qcleb_total a b) as [H | H]; [congruence | apply Qcleb_le, H].
Qed.

Lemma Qcmin_le_r (a b : Qc) : Qcmin a b <= b.
Proof.
  unfold Qcmin. destruct (Qcleb a b) eqn:E.
  - apply Qcleb_le, E.
  - apply Qcle_refl.
Qed.

Lemma Qcmax_le_l (a b : Qc) : a <= Qcmax a b.
Proof.
  unfold Qcmax. destruct (Qcleb a b) eqn:E.
  - apply Qcleb_le, E.
  - apply Qcle_refl.
Qed.

Lemma Qcmax_le_r (a b : Qc) : b <= Qcmax a b.
Proof.
  unfold Qcmax. destruct (Qcleb a b) eqn:E.
  - apply Qcle_refl.
  - destruct (Qcleb_total a b) as [H | H]; [congruence | apply Qcleb_le, H].
Qed.

End NumericFacts.

(** ** The backtest *)

Module BacktestFacts.

Import Numeric Frames Analytics Backtest NumericFacts ZScoreFacts.
Local Open Scope Qc_scope.

(** The three kinds of z-score on the symmetric path. *)
Definition z_zero (z : fval) : bool :=
  match z with Fin q => Qceqb q 0 | _ => false end.
Definition z_low (z : fval) : bool := fle z (Fin (qz (-3))).
Definition z_high (z : fval) : bool := fle (Fin (qz 3)) z.

(** A path that is 0, dips to -3 or below, returns to 0, rises to +3 or
    above and returns to 0; the leading stretch of zeros may be empty. *)
Definition symmetric_path (zs : list fval) : Prop :=
  exists flat0 dip flat1 rise flat2,
    zs = flat0 ++ dip ++ flat1 ++ rise ++ flat2 /\
    forallb z_zero flat0 = true /\
    dip <> [] /\ forallb z_low dip = true /\
    flat1 <> [] /\ forallb z_zero flat1 = true /\
    rise <> [] /\ forallb z_high rise = true /\
    flat2 <> [] /\ forallb z_zero flat2 = true.

Definition entry2 : Qc := qz 2.
Definition exit0 : Qc := 0.

Lemma z_zero_inv (z : fval) : z_zero z = true -> z = Fin 0.
Proof.
  destruct z; simpl; try discriminate.
  intros H. apply Qceqb_eq in H. subst. reflexivity.
Qed.

Lemma z_low_cmp (z : fval) :
  z_low z = true ->
  flt z (Fin (- entry2)) = true /\ fge z (Fin exit0) = false.
Proof.
  unfold z_low, fge. destruct z; simpl; try discriminate.
  - intros H. apply Qcleb_le in H. split.
    + apply Qcltb_lt. eapply Qcle_lt_trans; [exact H |]. vm_compute. reflexivity.
    + apply Qcleb_false_lt. eapply Qcle_lt_trans; [exact H |]. vm_compute. reflexivity.
  - intros _. split; reflexivity.
Qed.

Lemma z_high_cmp (z : fval) :
  z_high z = true ->
  flt z (Fin (- entry2)) = false /\ fgt z (Fin entry2) = true /\
  fle z (Fin (- exit0)) = false.
Proof.
  unfold z_high, fgt. destruct z; simpl; try discriminate.
  - intros H. apply Qcleb_le in H. split; [| split].
    + apply Qcltb_false_le. eapply Qcle_trans; [| exact H]. vm_compute. discriminate.
    + apply Qcltb_lt. eapply Qclt_le_trans; [| exact H]. vm_compute. reflexivity.
    + apply Qcleb_false_lt. eapply Qclt_le_trans; [| exact H]. vm_compute. reflexivity.
  - intros _. repeat split; reflexivity.
Qed.

(** *** What one iteration decides, by position and kind of z-score *)

Section Decide.
Variable st : LoopState.
Variable s : Sample.

Lemma decide_flat :
  position st = 0%Z -> z_zero (s_z s) = true ->
  decide entry2 exit0 st s = st.
Proof.
  intros Hp Hz. apply z_zero_inv in Hz. unfold decide. rewrite Hp, Hz.
  reflexivity.
Qed.

Lemma decide_enter_long :
  position st = 0%Z -> z_low (s_z s) = true ->
  decide entry2 exit0 st s = open_trade LONG st (s_time s) (s_price s) (s_z s).
Proof.
  intros Hp Hz. apply z_low_cmp in Hz. destruct Hz as [Hz _].
  unfold decide. rewrite Hp, Hz. reflexivity.
Qed.

Lemma decide_hold_long :
  position st = 1%Z -> z_low (s_z s) = true ->
  decide entry2 exit0 st s = st.
Proof.
  intros Hp Hz. apply z_low_cmp in Hz. destruct Hz as [_ Hz].
  unfold decide. rewrite Hp, Hz. reflexivity.
Qed.

Lemma decide_exit_long :
  position st = 1%Z -> z_zero (s_z s) = true ->
  decide entry2 exit0 st s = close_trade st (s_time s) (s_price s) (s_z s).
Proof.
  intros Hp Hz. apply z_zero_inv in Hz. unfold decide. rewrite Hp, Hz.
  reflexivity.
Qed.

Lemma decide_enter_short :
  position st = 0%Z -> z_high (s_z s) = true ->
  decide entry2 exit0 st s = open_trade SHORT st (s_time s) (s_price s) (s_z s).
Proof.
  intros Hp Hz. apply z_high_cmp in Hz. destruct Hz as (H1 & H2 & _).
  unfold decide. rewrite Hp, H1, H2. reflexivity.
Qed.

Lemma decide_hold_short :
  position st = (-1)%Z -> z_high (s_z s) = true ->
  decide entry2 exit0 st s = st.
Proof.
  intros Hp Hz. apply z_high_cmp in Hz. destruct Hz as (_ & _ & H3).
  unfold decide. rewrite Hp, H3. reflexivity.
Qed.

Lemma decide_exit_short :
  position st = (-1)%Z -> z_zero (s_z s) = true ->
  decide entry2 exit0 st s = close_trade st (s_time s) (s_price s) (s_z s).
Proof.
  intros Hp Hz. apply z_zero_inv in Hz. unfold decide. rewrite Hp, Hz.
  reflexivity.
Qed.

End Decide.

(** *** The loop *)

Section Loop.
Variable entry_threshold exit_threshold : Qc.

Let decide' := decide entry_threshold exit_threshold.
Let run_loop' := run_loop entry_threshold exit_threshold.

Lemma run_loop_app (st : LoopState) (a b : list Sample) :
  run_loop' st (a ++ b) = run_loop' (run_loop' st a) b.
Proof. unfold run_loop', run_loop. apply fold_left_app. Qed.

Lemma decide_equity_curve (st : LoopState) (s : Sample) :
  equity_curve (decide' st s) = equity_curve st.
Proof.
  unfold decide', decide.
  destruct (position st =? 0)%Z.
  - destruct (flt _ _); [reflexivity |]. destruct (fgt _ _); reflexivity.
  - destruct (_ || _); reflexivity.
Qed.

Lemma decide_flat_equity (st : LoopState) (s : Sample) :
  position st = 0%Z -> current_equity (decide' st s) = current_equity st.
Proof.
  intros Hp. unfold decide', decide. rewrite Hp, Z.eqb_refl.
  destruct (flt _ _); [reflexivity |]. destruct (fgt _ _); reflexivity.
Qed.

(** Every iteration appends exactly one equity value. *)
Lemma run_loop_equity (samples : list Sample) : forall st,
  exists more,
    equity_curve (run_loop' st samples) = equity_curve st ++ more /\
    length more = length samples.
Proof.
  induction samples as [| s rest IH]; intros st.
  - exists []. split; [symmetry; apply app_nil_r | reflexivity].
  - destruct (IH (step entry_threshold exit_threshold st s)) as (more & Hm & Hl).
    exists (current_equity (decide' st s) :: more). split.
    + unfold run_loop', run_loop in *. simpl fold_left. rewrite Hm.
      unfold step, push_equity. cbn [equity_curve].
      fold decide'. rewrite decide_equity_curve, <- app_assoc. reflexivity.
    + simpl. rewrite Hl. reflexivity.
Qed.

(** The curve of a run that starts flat begins with the starting equity. *)
Lemma run_loop_first_equity (samples : list Sample) (st : LoopState) :
  position st = 0%Z -> equity_curve st = [] -> samples <> [] ->
  hd_error (equity_curve (run_loop' st samples)) = Some (current_equity st).
Proof.
  intros Hp He Hs. destruct samples as [| s rest]; [congruence |].
  destruct (run_loop_equity rest (step entry_threshold exit_threshold st s))
    as (more & Hm & _).
  unfold run_loop', run_loop in *. simpl fold_left. rewrite Hm.
  unfold step, push_equity. cbn [equity_curve]. fold decide'.
  rewrite decide_equity_curve, He, decide_flat_equity by assumption.
  reflexivity.
Qed.

End Loop.

(** While every z-score leaves the position alone, position and trades
    stay as they are. *)
Lemma run_loop_hold (pos : Z) (Pz : fval -> bool) :
  (forall st s, position st = pos -> Pz (s_z s) = true ->
                decide entry2 exit0 st s = st) ->
  forall samples st,
    position st = pos -> forallb Pz (map s_z samples) = true ->
    position (run_loop entry2 exit0 st samples) = pos /\
    trades (run_loop entry2 exit0 st samples) = trades st.
Proof.
  intros Hidle. induction samples as [| s rest IH]; intros st Hp Hz.
  - split; [exact Hp | reflexivity].
  - simpl in Hz. apply andb_true_iff in Hz. destruct Hz as [Hs Hrest].
    unfold run_loop. simpl fold_left. fold (run_loop entry2 exit0).
    assert (step entry2 exit0 st s = push_equity st) as Hstep
      by (unfold step; rewrite Hidle by assumption; reflexivity).
    rewrite Hstep.
    destruct (IH (push_equity st) Hp Hrest) as [H1 H2].
    split; [exact H1 | exact H2].
Qed.

(** The loop over a symmetric path ends flat with one closed long trade
    followed by one closed short trade. *)
Lemma run_loop_symmetric (R0 R1 R2 R3 R4 : list Sample) :
  forallb z_zero (map s_z R0) = true ->
  R1 <> [] -> forallb z_low (map s_z R1) = true ->
  R2 <> [] -> forallb z_zero (map s_z R2) = true ->
  R3 <> [] -> forallb z_high (map s_z R3) = true ->
  R4 <> [] -> forallb z_zero (map s_z R4) = true ->
  let st := run_loop entry2 exit0 initial_state (R0 ++ R1 ++ R2 ++ R3 ++ R4) in
  position st = 0%Z /\
  exists t1 t2 e1 e2,
    trades st = [t1; t2] /\
    side t1 = LONG /\ closed t1 = Some e1 /\
    side t2 = SHORT /\ closed t2 = Some e2.
Proof.
  intros H0 N1 H1 N2 H2 N3 H3 N4 H4.
  destruct R1 as [| s1 R1']; [congruence |].
  destruct R2 as [| s2 R2']; [congruence |].
  destruct R3 as [| s3 R3']; [congruence |].
  destruct R4 as [| s4 R4']; [congruence |].
  simpl in H1, H2, H3, H4.
  apply andb_true_iff in H1, H2, H3, H4.
  destruct H1 as [H1 H1'], H2 as [H2 H2'], H3 as [H3 H3'], H4 as [H4 H4'].
  cbv zeta. rewrite !run_loop_app.
  (* leading zeros *)
  destruct (run_loop_hold 0 z_zero decide_flat R0 initial_state eq_refl H0)
    as [P1 T1].
  set (st1 := run_loop entry2 exit0 initial_state R0) in *.
  (* the dip: the long trade opens, then is held *)
  change (run_loop entry2 exit0 st1 (s1 :: R1'))
    with (run_loop entry2 exit0 (step entry2 exit0 st1 s1) R1').
  set (st2 := step entry2 exit0 st1 s1).
  assert (position st2 = 1%Z /\
          trades st2 = [mkTrade LONG (s_time s1) (s_price s1) (s_z s1) None])
    as [P2 T2].
  { unfold st2, step. rewrite decide_enter_long by assumption.
    cbn [position trades push_equity open_trade]. rewrite T1. split; reflexivity. }
  destruct (run_loop_hold 1 z_low decide_hold_long R1' st2 P2 H1') as [P3 T3].
  set (st3 := run_loop entry2 exit0 st2 R1') in *.
  (* back to zero: the long trade closes, then nothing happens *)
  change (run_loop entry2 exit0 st3 (s2 :: R2'))
    with (run_loop entry2 exit0 (step entry2 exit0 st3 s2) R2').
  set (st4 := step entry2 exit0 st3 s2).
  assert (position st4 = 0%Z /\
          exists e1, trades st4 =
            [mkTrade LONG (s_time s1) (s_price s1) (s_z s1) (Some e1)])
    as [P4 [e1 T4]].
  { unfold st4, step. rewrite decide_exit_long by assumption.
    cbn [position trades push_equity close_trade]. rewrite T3, T2.
    split; [reflexivity |]. eexists. reflexivity. }
  destruct (run_loop_hold 0 z_zero decide_flat R2' st4 P4 H2') as [P5 T5].
  set (st5 := run_loop entry2 exit0 st4 R2') in *.
  (* the rise: the short trade opens, then is held *)
  change (run_loop entry2 exit0 st5 (s3 :: R3'))
    with (run_loop entry2 exit0 (step entry2 exit0 st5 s3) R3').
  set (st6 := step entry2 exit0 st5 s3).
  assert (position st6 = (-1)%Z /\
          trades st6 =
            [mkTrade LONG (s_time s1) (s_price s1) (s_z s1) (Some e1);
             mkTrade SHORT (s_time s3) (s_price s3) (s_z s3) None])
    as [P6 T6].
  { unfold st6, step. rewrite decide_enter_short by assumption.
    cbn [position trades push_equity open_trade]. rewrite T5, T4.
    split; reflexivity. }
  destruct (run_loop_hold (-1) z_high decide_hold_short R3' st6 P6 H3') as [P7 T7].
  set (st7 := run_loop entry2 exit0 st6 R3') in *.
  (* back to zero: the short trade closes *)
  change (run_loop entry2 exit0 st7 (s4 :: R4'))
    with (run_loop entry2 exit0 (step entry2 exit0 st7 s4) R4').
  set (st8 := step entry2 exit0 st7 s4).
  assert (position st8 = 0%Z /\
          exists e2, trades st8 =
            [mkTrade LONG (s_time s1) (s_price s1) (s_z s1) (Some e1);
             mkTrade SHORT (s_time s3) (s_price s3) (s_z s3) (Some e2)])
    as [P8 [e2 T8]].
  { unfold st8, step. rewrite decide_exit_short by assumption.
    cbn [position trades push_equity close_trade]. rewrite T7, T6.
    split; [reflexivity |]. eexists. reflexivity. }
  destruct (run_loop_hold 0 z_zero decide_flat R4' st8 P8 H4') as [P9 T9].
  split; [exact P9 |].
  rewrite T9, T8. do 2 eexists. exists e1, e2.
  split; [reflexivity |]. repeat split.
Qed.

Lemma samples_of_z (spread : Series) : forall zs,
  length zs = length spread -> map s_z (samples_of spread zs) = zs.
Proof.
  induction spread as [| [t p] rest IH]; intros [| z zs] H; simpl in *;
    try discriminate; [reflexivity |].
  f_equal. apply IH. lia.
Qed.

Lemma samples_of_length (spread : Series) : forall zs,
  length zs = length spread -> length (samples_of spread zs) = length spread.
Proof.
  induction spread as [| [t p] rest IH]; intros [| z zs] H; simpl in *;
    try discriminate; [reflexivity |].
  f_equal. apply IH. lia.
Qed.

(** C3. Entry threshold 2, exit threshold 0, at least [window]
    observations, and the z-scores visited by the loop (indices [window]
    onwards) forming a symmetric path: the report holds exactly two trades,
    a closed long followed by a closed short, the equity curve has
    [len(spread) - window] entries and starts at 100000. *)
Theorem backtest_symmetric_path :
  forall (sqrt : Qc -> Qc) (spread : Series) (window : nat),
    (window <= length spread)%nat ->
    symmetric_path (skipn window (compute_zscore sqrt (map snd spread) window)) ->
    exists report t1 t2 e1 e2,
      run sqrt (qz 2) 0 spread window = Full report /\
      report_trades report = [t1; t2] /\
      side t1 = LONG /\ closed t1 = Some e1 /\
      side t2 = SHORT /\ closed t2 = Some e2 /\
      total_trades report = 2%nat /\
      length (report_equity_curve report) = (length spread - window)%nat /\
      hd_error (report_equity_curve report) = Some (Some (qz 100000)).
Proof.
  intros sqrt spread window Hw (f0 & d & f1 & r & f2 & Hz & H0 & N1 & H1 &
                                N2 & H2 & N3 & H3 & N4 & H4).
  set (zscore := compute_zscore sqrt (map snd spread) window) in *.
  assert (length zscore = length spread) as Hlen.
  { unfold zscore. rewrite compute_zscore_length by (rewrite length_map; exact Hw).
    apply length_map. }
  set (rows := skipn window (samples_of spread zscore)).
  assert (map s_z rows = f0 ++ d ++ f1 ++ r ++ f2) as Hrows.
  { unfold rows. rewrite <- skipn_map. rewrite samples_of_z by exact Hlen. exact Hz. }
  assert (length rows = (length spread - window)%nat) as Hrl.
  { unfold rows. rewrite length_skipn. rewrite samples_of_length by exact Hlen. reflexivity. }
  apply map_eq_app in Hrows. destruct Hrows as (R0 & X1 & Er & E0 & Hrows).
  apply map_eq_app in Hrows. destruct Hrows as (R1 & X2 & E1' & E1 & Hrows).
  apply map_eq_app in Hrows. destruct Hrows as (R2 & X3 & E2' & E2 & Hrows).
  apply map_eq_app in Hrows. destruct Hrows as (R3 & R4 & E3' & E3 & E4).
  subst X1 X2 X3.
  assert (forall (R : list Sample) l, map s_z R = l -> l <> [] -> R <> []) as Hne.
  { intros R l E N ->. apply N. symmetry. exact E. }
  destruct (run_loop_symmetric R0 R1 R2 R3 R4) as (Hpos & t1 & t2 & e1 & e2 & Ht & Hs);
    try (rewrite ?E0, ?E1, ?E2, ?E3, ?E4; assumption);
    try (eapply Hne; eassumption).
  rewrite <- Er in Hpos, Ht. unfold entry2, exit0 in Hpos, Ht.
  assert (rows <> []) as Hrne.
  { rewrite Er. destruct R0; [| discriminate].
    destruct R1; [| discriminate]. exfalso. apply N1. symmetry. exact E1. }
  unfold run.
  replace (length spread <? window)%nat with false by (symmetry; apply Nat.ltb_ge; lia).
  fold zscore. fold rows.
  set (st := run_loop (qz 2) 0 initial_state rows) in *.
  assert (close_open_position st spread zscore = st) as Hclose.
  { unfold close_open_position. rewrite Hpos. reflexivity. }
  rewrite Hclose, Ht.
  eexists. exists t1, t2, e1, e2.
  split; [reflexivity |]. cbn [report_trades total_trades report_equity_curve].
  split; [reflexivity |].
  destruct Hs as (S1 & C1 & S2 & C2).
  repeat (split; [assumption |]).
  split; [unfold completed; simpl; rewrite C1, C2; reflexivity |].
  destruct (run_loop_equity (qz 2) 0 rows initial_state) as (more & Hm & Hl).
  split.
  - fold st in Hm. rewrite Hm. simpl. rewrite Hl. exact Hrl.
  - apply (run_loop_first_equity (qz 2) 0 rows initial_state);
      [reflexivity | reflexivity | exact Hrne].
Qed.

(** A concrete run with a window of 16: sixteen alternating observations,
    then one at the window mean, a crash, the mean again, a spike and the
    mean once more. *)
Definition demo_spread : Series :=
  combine (map Z.of_nat (seq 0 21))
    (map Some
       ([ 1; -(1); 1; -(1); 1; -(1); 1; -(1); 1; -(1); 1; -(1); 1; -(1); 1; -(1) ]
        ++ [ qfrac (-1) 15; qz (-1000); qfrac (-15016) 225; qz 100000;
             qfrac 22259744 3375 ])).

Lemma backtest_symmetric_path_witness :
  (16 <= length demo_spread)%nat /\
  symmetric_path (skipn 16 (compute_zscore sqrt6 (map snd demo_spread) 16)) /\
  exists report,
    run sqrt6 (qz 2) 0 demo_spread 16 = Full report /\
    total_trades report = 2%nat /\
    length (report_equity_curve report) = 5%nat.
Proof.
  assert (16 <= length demo_spread)%nat as Hw by (vm_compute; lia).
  assert (symmetric_path
            (skipn 16 (compute_zscore sqrt6 (map snd demo_spread) 16))) as Hp.
  { set (zs := skipn 16 (compute_zscore sqrt6 (map snd demo_spread) 16)).
    exists (firstn 1 zs), (firstn 1 (skipn 1 zs)), (firstn 1 (skipn 2 zs)),
           (firstn 1 (skipn 3 zs)), (skipn 4 zs).
    repeat split; try (vm_compute; reflexivity); vm_compute; discriminate. }
  split; [exact Hw |]. split; [exact Hp |].
  destruct (backtest_symmetric_path sqrt6 demo_spread 16 Hw Hp)
    as (report & t1 & t2 & e1 & e2 & Hrun & _ & _ & _ & _ & _ & Ht & Hl & _).
  exists report. split; [exact Hrun |]. split; [exact Ht | exact Hl].
Defined.

End BacktestFacts.

(** ** Resampling *)

Module SamplerFacts.

Import Numeric Config Sampler NumericFacts.

Lemma minimum_le (l : list Qc) (m : Qc) :
  minimum l = Some m -> forall x, In x l -> (m <= x)%Qc.
Proof.
  revert m. induction l as [| a t IH]; intros m Hm x Hx; simpl in *; [contradiction |].
  destruct (minimum t) as [m' |] eqn:E.
  - injection Hm as <-. destruct Hx as [<- | Hx].
    + apply Qcmin_le_l.
    + eapply Qcle_trans; [apply Qcmin_le_r | apply (IH m' eq_refl x Hx)].
  - injection Hm as <-. destruct t; [| simpl in E; destruct (minimum t); discriminate].
    destruct Hx as [<- | []]. apply Qcle_refl.
Qed.

Lemma maximum_ge (l : list Qc) (m : Qc) :
  maximum l = Some m -> forall x, In x l -> (x <= m)%Qc.
Proof.
  revert m. induction l as [| a t IH]; intros m Hm x Hx; simpl in *; [contradiction |].
  destruct (maximum t) as [m' |] eqn:E.
  - injection Hm as <-. destruct Hx as [<- | Hx].
    + apply Qcmax_le_l.
    + eapply Qcle_trans; [apply (IH m' eq_refl x Hx) | apply Qcmax_le_r].
  - injection Hm as <-. destruct t; [| simpl in E; destruct (maximum t); discriminate].
    destruct Hx as [<- | []]. apply Qcle_refl.
Qed.

Lemma first_In (l : list Qc) (x : Qc) : first l = Some x -> In x l.
Proof.
  destruct l; simpl; [discriminate |]. intros H. injection H as <-. left. reflexivity.
Qed.

Lemma last_In (l : list Qc) (x : Qc) : last_ l = Some x -> In x l.
Proof.
  unfold last_. intros H. apply in_rev.
  destruct (rev l); simpl in H; [discriminate |].
  injection H as <-. left. reflexivity.
Qed.

(** A row kept by [dropna] comes from a raw row with all four prices. *)
Lemma dropna_In (rows : list RawBar) (b : Bar) :
  In b (dropna rows) ->
  exists r, In r rows /\
    r_timestamp r = timestamp b /\ r_symbol r = symbol b /\
    r_open r = Some (open b) /\ r_high r = Some (high b) /\
    r_low r = Some (low b) /\ r_close r = Some (close b) /\
    r_volume r = volume b /\ r_trade_count r = trade_count b.
Proof.
  induction rows as [| r t IH]; simpl; [contradiction |].
  destruct (r_open r) eqn:Eo, (r_high r) eqn:Eh, (r_low r) eqn:El,
           (r_close r) eqn:Ec;
    try (intros H; destruct (IH H) as (r' & Hr & Hrest); exists r'; split;
         [right; exact Hr | exact Hrest]).
  intros [<- | H].
  - exists r. simpl. repeat split; auto.
  - destruct (IH H) as (r' & Hr & Hrest). exists r'. split; [right; exact Hr | exact Hrest].
Qed.

Lemma configured_positive (timeframe : string) (secs : Z) :
  timeframe_seconds TIMEFRAMES timeframe = Some secs -> (0 < secs)%Z.
Proof.
  unfold TIMEFRAMES. simpl. intros E.
  repeat match type of E with
         | (if ?c then _ else _) = _ => destruct c
         end; try discriminate; injection E as <-; lia.
Qed.

Lemma bins_multiple (ms : Z) (sorted : list Tick) (start : Z) :
  In start (bins ms sorted) -> exists k, start = (k * ms)%Z.
Proof.
  unfold bins. destruct sorted as [| t0 rest]; [contradiction |].
  rewrite in_map_iff. intros (k & <- & _).
  unfold bin_start. exists (t_timestamp t0 / ms + Z.of_nat k)%Z. ring.
Qed.

(** Where a bar comes from: the ticks of its symbol whose timestamp falls
    in its interval, which are at least one. *)
Lemma resample_bar_inv (ticks : list Tick) (timeframe : string)
  (bars : list Bar) (b : Bar) :
  resample_ticks ticks timeframe = Return bars -> In b bars ->
  exists secs members,
    timeframe_seconds TIMEFRAMES timeframe = Some secs /\
    members <> [] /\
    (forall t, In t members ->
       In t ticks /\ t_symbol t = symbol b /\
       bin_start (secs * 1000) (t_timestamp t) = timestamp b) /\
    first (map price members) = Some (open b) /\
    maximum (map price members) = Some (high b) /\
    minimum (map price members) = Some (low b) /\
    last_ (map price members) = Some (close b) /\
    volume b = sum (map size members) /\
    trade_count b = length members /\
    exists k, timestamp b = (k * (secs * 1000))%Z.
Proof.
  unfold resample_ticks.
  destruct (timeframe_seconds TIMEFRAMES timeframe) as [secs |] eqn:Etf; [| discriminate].
  destruct ticks as [| t0 rest] eqn:Eticks; [intros H; injection H as <-; contradiction |].
  rewrite <- Eticks. intros H Hb. injection H as <-.
  apply dropna_In in Hb.
  destruct Hb as (r & Hr & Ets & Esym & Eo & Eh & El & Ec & Ev & En).
  apply in_flat_map in Hr. destruct Hr as (sym & _ & Hr).
  unfold resample_group in Hr. apply in_map_iff in Hr.
  destruct Hr as (start & <- & Hstart).
  simpl in Ets, Esym, Eo, Eh, El, Ec, Ev, En. subst start sym.
  set (ms := (secs * 1000)%Z) in *.
  set (sorted := by_time (filter (fun t => String.eqb (t_symbol t) (symbol b)) ticks)) in *.
  exists secs, (filter (in_bin ms (timestamp b)) sorted).
  split; [reflexivity |].
  split.
  { intros E. rewrite E in Eo. discriminate. }
  split.
  { intros t Ht. apply filter_In in Ht. destruct Ht as [Ht Hbin].
    unfold sorted, by_time in Ht.
    apply (Permutation_in _ (isort_perm _ _ _)) in Ht.
    apply filter_In in Ht. destruct Ht as [Ht Hs].
    split; [exact Ht |]. split; [apply String.eqb_eq, Hs |].
    apply Z.eqb_eq, Hbin. }
  repeat (split; [assumption || (symmetry; assumption) |]).
  eapply bins_multiple. exact Hstart.
Qed.

(** C4. Every bar produced by [resample_ticks] has its low at or below
    both its open and its close, and its high at or above both. *)
Theorem resample_ohlc_consistent :
  forall (ticks : list Tick) (timeframe : string) (bars : list Bar),
    resample_ticks ticks timeframe = Return bars ->
    forall b, In b bars ->
      (low b <= Qcmin (open b) (close b))%Qc /\
      (Qcmax (open b) (close b) <= high b)%Qc.
Proof.
  intros ticks tf bars Hrun b Hb.
  destruct (resample_bar_inv ticks tf bars b Hrun Hb)
    as (secs & members & _ & _ & _ & Ho & Hh & Hl & Hc & _).
  apply first_In in Ho. apply last_In in Hc.
  pose proof (minimum_le _ _ Hl) as Hmin.
  pose proof (maximum_ge _ _ Hh) as Hmax.
  split.
  - unfold Qcmin. destruct (Qcleb (open b) (close b)); auto.
  - unfold Qcmax. destruct (Qcleb (open b) (close b)); auto.
Qed.

(** *** The resampler and the unit of the datetime index *)





Section Units.

Local Open Scope Z_scope.



Section IndexUnit.

Variable u : Z.
Hypothesis u_pos : 0 < u.









End IndexUnit.


End Units.

(** Two ticks in the same minute, prices 100 then 105, sizes 1 and 2, and
    a third tick two minutes later. *)
Definition demo_ticks : list Tick :=
  [ mkTick 1700000040000 "btcusdt" (qz 100) (qz 1);
    mkTick 1700000050000 "btcusdt" (qz 105) (qz 2);
    mkTick 1700000170000 "btcusdt" (qz 101) (qz 1) ].

Example resample_two_ticks :
  match resample_ticks demo_ticks "1m" with
  | Return [b1; b2] =>
      timestamp b1 = 1700000040000%Z /\
      Qceqb (open b1) (qz 100) && Qceqb (high b1) (qz 105)
      && Qceqb (low b1) (qz 100) && Qceqb (close b1) (qz 105)
      && Qceqb (volume b1) (qz 3) = true /\
      trade_count b1 = 2%nat /\
      timestamp b2 = 1700000160000%Z
  | _ => False
  end.
Proof. vm_compute. repeat split. Qed.

Lemma resample_ohlc_consistent_witness :
  exists bars,
    resample_ticks demo_ticks "1m" = Return bars /\
    length bars = 2%nat /\
    forall b, In b bars ->
      (low b <= Qcmin (open b) (close b))%Qc /\
      (Qcmax (open b) (close b) <= high b)%Qc.
Proof.
  eexists. split; [vm_compute; reflexivity |]. split; [reflexivity |].
  apply (resample_ohlc_consistent demo_ticks "1m"). vm_compute. reflexivity.
Defined.



End SamplerFacts.

(** ** The store's reads *)

Module StorageFacts.

Import Numeric Config Sampler Storage.
Local Open Scope Z_scope.

Lemma StronglySorted_weaken {A : Type} (R R' : A -> A -> Prop) (l : list A) :
  (forall a b, R a b -> R' a b) -> StronglySorted R l -> StronglySorted R' l.
Proof.
  intros Himp. induction 1 as [| a t Hs IH Hf]; constructor; [exact IH |].
  rewrite Forall_forall in *. intros b Hb. apply Himp, Hf, Hb.
Qed.

Lemma StronglySorted_app_cross {A : Type} (R : A -> A -> Prop) (l1 l2 : list A) :
  StronglySorted R (l1 ++ l2) ->
  forall a b, In a l1 -> In b l2 -> R a b.
Proof.
  induction l1 as [| x t IH]; simpl; intros Hs a b Ha Hb; [contradiction |].
  apply StronglySorted_inv in Hs. destruct Hs as [Hs Hf].
  destruct Ha as [<- | Ha].
  - rewrite Forall_forall in Hf. apply Hf, in_or_app. right. exact Hb.
  - apply (IH Hs a b Ha Hb).
Qed.

Section QueryFacts.

Variable Row : Type.
Variable row_symbol : Row -> string.
Variable row_timestamp : Row -> Z.

(** Rows in ascending order of timestamp. *)
Definition ascending (rows : list Row) : Prop :=
  StronglySorted (fun a b => row_timestamp a <= row_timestamp b) rows.

(** [result] is the [n] most recent of the [matching] rows: as many rows
    as the limit allows, none of them older than a row left out. *)
Definition most_recent (n : Z) (matching result : list Row) : Prop :=
  length result = Nat.min (Z.to_nat n) (length matching) /\
  exists rest,
    Permutation (result ++ rest) matching /\
    forall a b, In a result -> In b rest -> row_timestamp b <= row_timestamp a.

Lemma sort_values_ascending (rows : list Row) :
  ascending (sort_values row_timestamp rows).
Proof.
  unfold ascending, sort_values.
  eapply StronglySorted_weaken; [| apply isort_sorted].
  - intros a b H. apply Z.leb_le, H.
  - intros a b. rewrite !Z.leb_le. lia.
  - intros a b c. rewrite !Z.leb_le. lia.
Qed.

Lemma order_desc_sorted (rows : list Row) :
  StronglySorted (fun a b => row_timestamp b <= row_timestamp a)
    (order_by_timestamp_desc row_timestamp rows).
Proof.
  unfold order_by_timestamp_desc.
  eapply StronglySorted_weaken; [| apply isort_sorted].
  - intros a b H. apply Z.leb_le, H.
  - intros a b. rewrite !Z.leb_le. lia.
  - intros a b c. rewrite !Z.leb_le. lia.
Qed.

Variable table : list Row.
Variable sym : string.
Variable start_time end_time : option Z.

Let matching := filter (where_ row_symbol row_timestamp sym start_time end_time) table.

Lemma query_ascending (limit : option Z) :
  ascending (query row_symbol row_timestamp table sym start_time end_time limit).
Proof. apply sort_values_ascending. Qed.

Lemma limit_incl (limit : option Z) (rows : list Row) :
  incl (limit_ limit rows) rows.
Proof.
  unfold limit_. destruct (given limit) as [n |]; [| apply incl_refl].
  destruct (n <? 0); [apply incl_refl |].
  intros r Hr. rewrite <- (firstn_skipn (Z.to_nat n) rows).
  apply in_or_app. left. exact Hr.
Qed.

(** Every returned row is a stored row of the requested symbol. *)
Lemma query_rows (limit : option Z) (r : Row) :
  In r (query row_symbol row_timestamp table sym start_time end_time limit) ->
  In r table /\ row_symbol r = sym.
Proof.
  unfold query, sort_values. intros H.
  apply (Permutation_in _ (isort_perm _ _ _)) in H.
  apply limit_incl in H. unfold order_by_timestamp_desc in H.
  apply (Permutation_in _ (isort_perm _ _ _)) in H.
  apply filter_In in H. destruct H as [Hin Hw]. split; [exact Hin |].
  unfold where_ in Hw. apply andb_true_iff in Hw. destruct Hw as [Hw _].
  apply andb_true_iff in Hw. destruct Hw as [Hw _].
  apply String.eqb_eq, Hw.
Qed.

(** With a positive limit the result is the most recent rows. *)
Lemma query_limit (n : Z) :
  0 < n ->
  most_recent n matching
    (query row_symbol row_timestamp table sym start_time end_time (Some n)).
Proof.
  intros Hn. unfold query, limit_.
  assert (given (Some n) = Some n) as -> by (destruct n; simpl; try reflexivity; lia).
  replace (n <? 0) with false by (symmetry; apply Z.ltb_ge; lia).
  fold matching.
  set (desc := order_by_timestamp_desc row_timestamp matching).
  assert (Permutation desc matching) as Hperm by apply isort_perm.
  set (k := Z.to_nat n).
  assert (Permutation (sort_values row_timestamp (firstn k desc)) (firstn k desc))
    as Hres by apply isort_perm.
  split.
  - rewrite (Permutation_length Hres), length_firstn, (Permutation_length Hperm).
    reflexivity.
  - exists (skipn k desc). split.
    + eapply perm_trans; [apply Permutation_app_tail, Hres |].
      rewrite firstn_skipn. exact Hperm.
    + intros a b Ha Hb.
      apply (Permutation_in _ Hres) in Ha.
      pose proof (order_desc_sorted matching) as Hs. fold desc in Hs.
      rewrite <- (firstn_skipn k desc) in Hs.
      apply (StronglySorted_app_cross _ _ _ Hs a b Ha Hb).
Qed.

(** Without a limit, and with a limit of [0], every matching row is
    returned. *)
Lemma query_unlimited (limit : option Z) :
  given limit = None ->
  Permutation (query row_symbol row_timestamp table sym start_time end_time limit)
    matching.
Proof.
  intros H. unfold query, limit_. rewrite H.
  eapply perm_trans; [apply isort_perm | apply isort_perm].
Qed.

End QueryFacts.

Arguments ascending {Row} row_timestamp rows.
Arguments most_recent {Row} row_timestamp n matching result.

(** C10, as the store implements it.  [get_ticks] and [get_bars] return
    stored rows of the requested symbol in ascending order of timestamp,
    whatever the order of insertion; with a positive limit [n] they return
    the [min n count] most recent matching rows; without a limit, or with
    a limit of [0], they return every matching row. *)
Theorem reads_ascending_most_recent :
  forall (db : DataStorage) (sym timeframe : string)
         (start_time end_time limit : option Z),
    let matching_ticks :=
      filter (where_ t_symbol t_timestamp sym start_time end_time) (ticks_table db) in
    let matching_bars :=
      filter (where_ symbol timestamp sym start_time end_time)
             (bars_table (bars_tables db) timeframe) in
    let ticks := get_ticks db sym start_time end_time limit in
    (ascending t_timestamp ticks /\
     (forall r, In r ticks -> In r (ticks_table db) /\ t_symbol r = sym) /\
     (forall n, limit = Some n -> 0 < n ->
        most_recent t_timestamp n matching_ticks ticks) /\
     (given limit = None -> Permutation ticks matching_ticks)) /\
    (forall secs, timeframe_seconds TIMEFRAMES timeframe = Some secs ->
       exists bars,
         get_bars db sym timeframe start_time end_time limit = Return bars /\
         ascending timestamp bars /\
         (forall r, In r bars ->
            In r (bars_table (bars_tables db) timeframe) /\ symbol r = sym) /\
         (forall n, limit = Some n -> 0 < n ->
            most_recent timestamp n matching_bars bars) /\
         (given limit = None -> Permutation bars matching_bars)).
Proof.
  intros db sym tf st en limit mt mb ticks. split.
  - unfold ticks, get_ticks. split; [apply query_ascending |].
    split; [intros r; apply query_rows |].
    split.
    + intros n -> Hn. apply query_limit, Hn.
    + apply query_unlimited.
  - intros secs Htf. unfold get_bars. rewrite Htf. eexists.
    split; [reflexivity |]. split; [apply query_ascending |].
    split; [intros r; apply query_rows |].
    split.
    + intros n -> Hn. apply query_limit, Hn.
    + apply query_unlimited.
Qed.

(** One symbol, three ticks stored out of time order. *)
Definition demo_db : DataStorage :=
  mkStorage
    [ mkTick 3000 "btcusdt" (qz 103) (qz 1);
      mkTick 1000 "btcusdt" (qz 101) (qz 1);
      mkTick 2000 "btcusdt" (qz 102) (qz 1) ]
    [].

Example get_ticks_limit_two :
  map t_timestamp (get_ticks demo_db "btcusdt" None None (Some 2)) = [2000; 3000].
Proof. reflexivity. Qed.

Lemma reads_ascending_most_recent_witness :
  (0 < 2)%Z /\
  most_recent t_timestamp 2
    (filter (where_ t_symbol t_timestamp "btcusdt" None None) (ticks_table demo_db))
    (get_ticks demo_db "btcusdt" None None (Some 2)).
Proof.
  split; [lia |].
  destruct (reads_ascending_most_recent demo_db "btcusdt" "1m" None None (Some 2))
    as [(_ & _ & H & _) _].
  apply (H 2 eq_refl). lia.
Defined.

(** The claim as worded fails for a limit of 0: it promises the 0 most
    recent rows, and the store returns all three. *)
Lemma limit_zero_returns_all :
  map t_timestamp (get_ticks demo_db "btcusdt" None None (Some 0))
  = [1000; 2000; 3000] /\
  ~ most_recent t_timestamp 0
      (filter (where_ t_symbol t_timestamp "btcusdt" None None) (ticks_table demo_db))
      (get_ticks demo_db "btcusdt" None None (Some 0)).
Proof.
  split; [reflexivity |].
  intros [Hlen _]. vm_compute in Hlen. discriminate.
Qed.

End StorageFacts.

(** ** Alert rules *)

Module AlertsFacts.

Import Py Alerts.

(** A rule that cannot fire on a context: it is disabled, or its symbol
    filter is a non-empty symbol other than the context's. *)
Definition inert (r : AlertRule) (context : Dict) : Prop :=
  enabled r = false \/
  exists s, symbol r = Some s /\ s <> ""%string /\
            get context "symbol" <> Some (VStr s).

(** An evaluator that knows the literal [True] and raises on every other
    source; it leaves the locals alone. *)
Definition literal_eval (source : string) (globals locals : Dict)
  : option PyVal * Dict :=
  (if String.eqb source "True" then Some (VBool true) else None, locals).

Section WithEval.

Variable py_eval : string -> Dict -> Dict -> option PyVal * Dict.

Lemma evaluate_disabled (r : AlertRule) (context : Dict) :
  enabled r = false -> evaluate py_eval r context = (false, context).
Proof. intros H. unfold evaluate. rewrite H. reflexivity. Qed.

Lemma evaluate_other_symbol (r : AlertRule) (context : Dict) (s : string) :
  symbol r = Some s -> s <> ""%string ->
  get context "symbol" <> Some (VStr s) ->
  evaluate py_eval r context = (false, context).
Proof.
  intros Hs Hne Hctx. unfold evaluate.
  destruct (negb (enabled r)); [reflexivity |].
  unfold symbol_filter. rewrite Hs.
  destruct (String.eqb s "") eqn:E; [apply String.eqb_eq in E; contradiction |].
  unfold symbol_differs.
  destruct (get context "symbol") as [[| | | | s' | |] |]; try reflexivity.
  destruct (String.eqb s' s) eqn:E'; [| reflexivity].
  apply String.eqb_eq in E'. subst s'. contradiction.
Qed.

Lemma evaluate_inert (r : AlertRule) (context : Dict) :
  inert r context -> evaluate py_eval r context = (false, context).
Proof.
  intros [H | (s & Hs & Hne & Hctx)].
  - apply evaluate_disabled, H.
  - eapply evaluate_other_symbol; eassumption.
Qed.

Lemma evaluate_fired (r : AlertRule) (context context' : Dict) :
  evaluate py_eval r context = (true, context') -> enabled r = true.
Proof.
  unfold evaluate. destruct (enabled r); [reflexivity |]. simpl. discriminate.
Qed.

Lemma cap_incl (alerts : list AlertInfo) : incl (cap alerts) alerts.
Proof.
  unfold cap. destruct (100 <? length alerts)%nat; [| apply incl_refl].
  destruct alerts; [apply incl_refl | apply incl_tl, incl_refl].
Qed.

(** What one pass over the rules can change. *)
Lemma check_rules_spec (now : Z) (has_cb : bool) (rs : list (string * AlertRule)) :
  forall alerts calls context rs' alerts' calls' context',
    check_rules py_eval rs has_cb alerts calls context now
    = (rs', alerts', calls', context') ->
    map fst rs' = map fst rs /\
    (forall k r, In (k, r) rs -> enabled r = false -> In (k, r) rs') /\
    (forall a, In a alerts' ->
       In a alerts \/
       exists k r, In (k, r) rs /\ enabled r = true /\ a_rule_id a = rule_id r) /\
    (forall r' c, In (r', c) calls' ->
       In (r', c) calls \/
       exists k r, In (k, r) rs /\ enabled r = true /\ rule_id r' = rule_id r).
Proof.
  induction rs as [| [k r] rest IH];
    intros alerts calls context rs' alerts' calls' context' H; simpl in H.
  - injection H as <- <- <- <-. repeat split; auto; intros; contradiction.
  - destruct (evaluate py_eval r context) as [fired ctx1] eqn:Ev.
    destruct fired.
    + pose proof (evaluate_fired _ _ _ Ev) as Hen.
      destruct (check_rules py_eval rest has_cb _ _ ctx1 now)
        as [[[rest' a1] c1] ctx2] eqn:Erest.
      injection H as <- <- <- <-.
      destruct (IH _ _ _ _ _ _ _ Erest) as (Hk & Hd & Ha & Hc).
      split; [simpl; f_equal; exact Hk |]. split; [| split].
      * intros k0 r0 [E | Hin] Hdis.
        -- injection E as <- <-. congruence.
        -- right. apply Hd; assumption.
      * intros a Hin. destruct (Ha a Hin) as [Hold | (k0 & r0 & Hin0 & He & Hid)].
        -- apply cap_incl in Hold. apply in_app_or in Hold.
           destruct Hold as [Hold | [<- | []]]; [left; exact Hold |].
           right. exists k, r. split; [left; reflexivity |]. split; [exact Hen | reflexivity].
        -- right. exists k0, r0. split; [right; exact Hin0 |]. split; assumption.
      * intros r' c Hin. destruct (Hc r' c Hin) as [Hold | (k0 & r0 & Hin0 & He & Hid)].
        -- destruct has_cb; [| left; exact Hold].
           apply in_app_or in Hold.
           destruct Hold as [Hold | [E | []]]; [left; exact Hold |].
           injection E as <- <-.
           right. exists k, r. split; [left; reflexivity |]. split; [exact Hen | reflexivity].
        -- right. exists k0, r0. split; [right; exact Hin0 |]. split; assumption.
    + destruct (check_rules py_eval rest has_cb alerts calls ctx1 now)
        as [[[rest' a1] c1] ctx2] eqn:Erest.
      injection H as <- <- <- <-.
      destruct (IH _ _ _ _ _ _ _ Erest) as (Hk & Hd & Ha & Hc).
      split; [simpl; f_equal; exact Hk |]. split; [| split].
      * intros k0 r0 [E | Hin] Hdis.
        -- left. exact E.
        -- right. apply Hd; assumption.
      * intros a Hin. destruct (Ha a Hin) as [Hold | (k0 & r0 & Hin0 & He & Hid)].
        -- left. exact Hold.
        -- right. exists k0, r0. split; [right; exact Hin0 |]. split; assumption.
      * intros r' c Hin. destruct (Hc r' c Hin) as [Hold | (k0 & r0 & Hin0 & He & Hid)].
        -- left. exact Hold.
        -- right. exists k0, r0. split; [right; exact Hin0 |]. split; assumption.
Qed.

(** When every rule is inert, a pass changes nothing. *)
Lemma check_rules_inert (now : Z) (has_cb : bool) (context : Dict)
  (rs : list (string * AlertRule)) :
  (forall k r, In (k, r) rs -> inert r context) ->
  forall alerts calls,
    check_rules py_eval rs has_cb alerts calls context now
    = (rs, alerts, calls, context).
Proof.
  induction rs as [| [k r] rest IH]; intros Hin alerts calls; simpl.
  - reflexivity.
  - rewrite (evaluate_inert r context) by (apply (Hin k r); left; reflexivity).
    rewrite IH by (intros k0 r0 H0; apply (Hin k0 r0); right; exact H0).
    reflexivity.
Qed.

(** A rule that is inert when its turn comes is stepped over: the pass is
    the pass over the rules before it followed by the pass over the rules
    after it. *)
Lemma check_rules_skip (now : Z) (has_cb : bool) (k : string) (r : AlertRule)
  (post : list (string * AlertRule)) (pre : list (string * AlertRule)) :
  forall alerts calls context pre' a1 c1 ctx1 post' a2 c2 ctx2,
    check_rules py_eval pre has_cb alerts calls context now = (pre', a1, c1, ctx1) ->
    inert r ctx1 ->
    check_rules py_eval post has_cb a1 c1 ctx1 now = (post', a2, c2, ctx2) ->
    check_rules py_eval (pre ++ (k, r) :: post) has_cb alerts calls context now
    = (pre' ++ (k, r) :: post', a2, c2, ctx2).
Proof.
  induction pre as [| [k0 r0] rest IH];
    intros alerts calls context pre' a1 c1 ctx1 post' a2 c2 ctx2 Hpre Hin Hpost.
  - simpl in Hpre. injection Hpre as <- <- <- <-.
    cbn [app check_rules]. rewrite (evaluate_inert r context Hin), Hpost.
    reflexivity.
  - cbn [app check_rules]. cbn [check_rules] in Hpre.
    destruct (evaluate py_eval r0 context) as [fired ctx0].
    destruct fired.
    + destruct (check_rules py_eval rest has_cb _ _ ctx0 now)
        as [[[rest' ra] rc] rctx] eqn:Erest.
      injection Hpre as <- <- <- <-.
      rewrite (IH _ _ _ _ _ _ _ _ _ _ _ Erest Hin Hpost). reflexivity.
    + destruct (check_rules py_eval rest has_cb alerts calls ctx0 now)
        as [[[rest' ra] rc] rctx] eqn:Erest.
      injection Hpre as <- <- <- <-.
      rewrite (IH _ _ _ _ _ _ _ _ _ _ _ Erest Hin Hpost). reflexivity.
Qed.

End WithEval.

Lemma update_rule_keys (m : AlertManager) (id : string) (kwargs : list Update) :
  map fst (rules (update_rule m id kwargs)) = map fst (rules m).
Proof.
  unfold update_rule. simpl. rewrite map_map. apply map_ext.
  intros [k r]. simpl. destruct (String.eqb k id); reflexivity.
Qed.

(** C8, as the engine implements it.  A disabled rule never fires, and a
    rule whose symbol filter is a non-empty symbol [s] never fires on a
    context whose symbol is not [s]; in both cases the condition is not
    even evaluated.  In a pass of [check_alerts] over any rule mapping, a
    rule that is inert when its turn comes is stepped over, whatever the
    other rules do: the pass is the pass over the rules before it followed
    by the pass over the rules after it, and the rule stays in its place
    with its count and time of last trigger, no alert is appended and no
    callback call is made for it.  Besides, a pass keeps every key of the
    mapping, appends alerts and makes callback calls only for enabled
    rules, and changes nothing when every rule is inert; disabling a rule
    through [update_rule] keeps it in the mapping. *)
Theorem inert_rules_never_trigger :
  forall (py_eval : string -> Dict -> Dict -> option PyVal * Dict),
    (forall r context,
       enabled r = false -> evaluate py_eval r context = (false, context)) /\
    (forall r context s,
       symbol r = Some s -> s <> ""%string ->
       get context "symbol" <> Some (VStr s) ->
       evaluate py_eval r context = (false, context)) /\
    (forall m pre k r post context now m1 context1 m2 context2,
       rules m = pre ++ (k, r) :: post ->
       check_alerts py_eval
         (mkManager pre (has_callback m) (active_alerts m) (callback_calls m))
         context now = (m1, context1) ->
       inert r context1 ->
       check_alerts py_eval
         (mkManager post (has_callback m) (active_alerts m1) (callback_calls m1))
         context1 now = (m2, context2) ->
       check_alerts py_eval m context now
       = (mkManager (rules m1 ++ (k, r) :: rules m2) (has_callback m)
                    (active_alerts m2) (callback_calls m2),
          context2)) /\
    (forall m context now m' context',
       check_alerts py_eval m context now = (m', context') ->
       map fst (rules m') = map fst (rules m) /\
       (forall k r, In (k, r) (rules m) -> enabled r = false -> In (k, r) (rules m')) /\
       (forall a, In a (active_alerts m') ->
          In a (active_alerts m) \/
          exists k r, In (k, r) (rules m) /\ enabled r = true /\
                      a_rule_id a = rule_id r) /\
       (forall r' c, In (r', c) (callback_calls m') ->
          In (r', c) (callback_calls m) \/
          exists k r, In (k, r) (rules m) /\ enabled r = true /\
                      rule_id r' = rule_id r)) /\
    (forall m context now,
       (forall k r, In (k, r) (rules m) -> inert r context) ->
       check_alerts py_eval m context now = (m, context)) /\
    (forall m id,
       map fst (rules (update_rule m id [SetEnabled false])) = map fst (rules m)).
Proof.
  intros py_eval.
  split; [apply evaluate_disabled |].
  split; [apply evaluate_other_symbol |].
  split; [| split; [| split]].
  - intros m pre k r post context now m1 context1 m2 context2 Hrules H1 Hin H2.
    unfold check_alerts in *. cbn [rules has_callback active_alerts callback_calls] in *.
    destruct (check_rules py_eval pre (has_callback m) (active_alerts m)
                (callback_calls m) context now) as [[[pre' a1] c1] ctx1] eqn:Epre.
    injection H1 as <- <-.
    cbn [rules has_callback active_alerts callback_calls] in *.
    destruct (check_rules py_eval post (has_callback m) a1 c1 ctx1 now)
      as [[[post' a2] c2] ctx2] eqn:Epost.
    injection H2 as <- <-.
    cbn [rules has_callback active_alerts callback_calls].
    rewrite Hrules.
    rewrite (check_rules_skip py_eval now (has_callback m) k r post pre
               _ _ _ _ _ _ _ _ _ _ _ Epre Hin Epost).
    reflexivity.
  - intros m context now m' context' H. unfold check_alerts in H.
    destruct (check_rules py_eval (rules m) (has_callback m) (active_alerts m)
                (callback_calls m) context now) as [[[rs a] c] ctx] eqn:E.
    injection H as <- <-. simpl.
    apply (check_rules_spec py_eval now (has_callback m) (rules m) _ _ _ _ _ _ _ E).
  - intros m context now Hin. unfold check_alerts.
    rewrite (check_rules_inert py_eval now (has_callback m) context (rules m) Hin).
    destruct m; reflexivity.
  - intros m id. apply update_rule_keys.
Qed.

Definition demo_context : Dict :=
  [ ("symbol"%string, VStr "btcusdt"); ("zscore"%string, VInt 3) ].

(** A rule without filter fires on the "btcusdt" context; the rule for
    "ethusdt" after it and the disabled rule are stepped over. *)
Lemma inert_rules_never_trigger_witness :
  let any := new_rule "r0" "any symbol" "True" None true in
  let eth := new_rule "r1" "eth only" "True" (Some "ethusdt"%string) true in
  let off := new_rule "r2" "off" "True" None false in
  let m := add_rule (add_rule (add_rule (new_manager true) any) eth) off in
  inert eth demo_context /\
  check_alerts literal_eval m demo_context 7%Z
  = (mkManager
       [ ("r0"%string, trigger any 7%Z); ("r1"%string, eth); ("r2"%string, off) ]
       true
       [ mkAlert "r0" "any symbol" (VStr "btcusdt") 7%Z demo_context ]
       [ (trigger any 7%Z, demo_context) ],
     demo_context).
Proof.
  intros any eth off m.
  assert (inert eth demo_context) as Hin.
  { right. exists "ethusdt"%string. repeat split; discriminate. }
  split; [exact Hin |].
  destruct (inert_rules_never_trigger literal_eval) as (_ & _ & H & _).
  exact (H m [("r0"%string, any)] "r1"%string eth [("r2"%string, off)]
           demo_context 7%Z _ _ _ _ eq_refl eq_refl Hin eq_refl).
Defined.

(** The symbol clause as worded fails for the empty string: a rule whose
    filter is [""] fires on a context for "btcusdt". *)
Lemma empty_symbol_filter_fires :
  let r := new_rule "r0" "anything" "True" (Some ""%string) true in
  symbol r = Some ""%string /\
  get demo_context "symbol" <> Some (VStr "") /\
  evaluate literal_eval r demo_context = (true, demo_context).
Proof.
  cbv zeta. split; [reflexivity |]. split; [discriminate | reflexivity].
Qed.

(** C2 (what the code does instead).  An enabled rule whose filter lets
    the context through hands its condition, whatever string it is, to
    [eval] with the globals [{"__builtins__": {}}] and the context as
    locals; nothing in [evaluate] inspects or restricts the source, and
    the context comes back as [eval] left it. *)
Theorem evaluate_hands_condition_to_eval :
  forall (py_eval : string -> Dict -> Dict -> option PyVal * Dict)
         (r : AlertRule) (context : Dict),
    enabled r = true ->
    symbol_filter r = None ->
    evaluate py_eval r context =
    match py_eval (condition r) [("__builtins__"%string, VEmptyDict)] context with
    | (Some v, context') => (truth v, context')
    | (None, context') => (false, context')
    end.
Proof.
  intros py_eval r context Hen Hf. unfold evaluate. rewrite Hen, Hf. reflexivity.
Qed.

Lemma evaluate_hands_condition_to_eval_witness :
  let r := new_rule "r3" "escape" "().__class__.__base__.__subclasses__()" None true in
  enabled r = true /\ symbol_filter r = None /\
  evaluate literal_eval r demo_context =
  match literal_eval "().__class__.__base__.__subclasses__()"
          [("__builtins__"%string, VEmptyDict)] demo_context with
  | (Some v, context') => (truth v, context')
  | (None, context') => (false, context')
  end.
Proof.
  cbv zeta. split; [reflexivity |]. split; [reflexivity |].
  apply (evaluate_hands_condition_to_eval literal_eval
           (new_rule "r3" "escape" "().__class__.__base__.__subclasses__()" None true)
           demo_context); reflexivity.
Defined.

End AlertsFacts.

(** ** The pipeline's life cycle *)

Module ProcessorFacts.

Import Config Processor.

Definition with_log (p : DataProcessor) (l : list (Level * string)) : DataProcessor :=
  mkProcessor (symbols p) (has_alert_manager p) (running p) (ws_client p)
    (resampling_threads p) (started p) l.

(** Starting a running pipeline only logs a warning. *)
Lemma start_running_warns (p : DataProcessor) :
  running p = true ->
  start p = with_log p (log p ++ [(WARNING, "Data processor already running"%string)]).
Proof.
  intros H. unfold start, with_log.
  destruct (running p); [reflexivity | discriminate].
Qed.

(** A pipeline that ran, connected and was stopped. *)
Definition stopped_after_run : DataProcessor :=
  let p := start (new_processor ["btcusdt"%string] true) in
  let connected :=
    mkProcessor (symbols p) (has_alert_manager p) (running p)
      (option_map (fun c => mkWs (ws_running c) true (ws_closed c)) (ws_client p))
      (resampling_threads p) (started p) (log p) in
  stop connected.

(** The entries [stop] appends to the log. *)
Definition stop_entries (p : DataProcessor) : list (Level * string) :=
  match ws_client p with
  | Some _ => [(INFO, "WebSocket client stopped"%string)]
  | None => []
  end ++ [(INFO, "Data processor stopped"%string)].

(** C9, as the pipeline implements it.  [start] on a running pipeline
    changes nothing but the log, which gains one warning.  [stop] on a
    pipeline that is not running leaves the flag, the worker set and the
    thread table as they are and logs at level INFO only; a websocket
    client left by an earlier run is stopped once more. *)
Theorem lifecycle_misuse :
  forall (p : DataProcessor),
    (running p = true ->
       start p
       = with_log p (log p ++ [(WARNING, "Data processor already running"%string)])) /\
    (running p = false ->
       running (stop p) = false /\
       symbols (stop p) = symbols p /\
       resampling_threads (stop p) = resampling_threads p /\
       started (stop p) = started p /\
       ws_client (stop p) = option_map ws_stop (ws_client p) /\
       log (stop p) = log p ++ stop_entries p /\
       Forall (fun e => fst e = INFO) (stop_entries p)).
Proof.
  intros p. split.
  - apply start_running_warns.
  - intros _. unfold stop, stop_entries. simpl.
    repeat (split; [reflexivity |]).
    destruct (ws_client p); repeat constructor.
Qed.

Lemma lifecycle_misuse_witness :
  let fresh := new_processor ["btcusdt"%string] true in
  running (start fresh) = true /\
  start (start fresh)
  = with_log (start fresh)
      (log (start fresh) ++ [(WARNING, "Data processor already running"%string)]) /\
  running fresh = false /\
  log (stop fresh) = log fresh ++ stop_entries fresh.
Proof.
  intros fresh.
  destruct (lifecycle_misuse (start fresh)) as [Hstart _].
  destruct (lifecycle_misuse fresh) as [_ Hstop].
  split; [reflexivity |].
  split; [apply Hstart; reflexivity |].
  split; [reflexivity |].
  apply (Hstop eq_refl).
Defined.

(** The stop half of the claim as worded fails: on a pipeline that was
    never started [stop] logs no warning, and on one that ran before it is
    not a no-op, the websocket connection being closed a second time. *)
Lemma stop_not_running_no_warning :
  let fresh := new_processor ["btcusdt"%string] true in
  running fresh = false /\
  stop fresh = with_log fresh [(INFO, "Data processor stopped"%string)] /\
  (forall msg, ~ In (WARNING, msg) (log (stop fresh))) /\
  running stopped_after_run = false /\
  option_map ws_closed (ws_client stopped_after_run) = Some 1%nat /\
  option_map ws_closed (ws_client (stop stopped_after_run)) = Some 2%nat.
Proof.
  cbv zeta. split; [reflexivity |]. split; [reflexivity |].
  split; [| repeat split].
  intros msg [H | []]. discriminate.
Qed.

End ProcessorFacts.

(* ===================================================================== *)
(** * Part III: further properties of the same modules                    *)
(* ===================================================================== *)

(** ** Order facts on fractions *)

Module QcOrder.

Local Open Scope Qc_scope.

Lemma div_pos (a b : Qc) : 0 < a -> 0 < b -> 0 < a / b.
Proof.
  unfold Qclt, Qcdiv, Qcmult, Qcinv, Q2Qc. cbn [this].
  rewrite !Qred_correct. intros Ha Hb.
  apply Qmult_lt_0_compat; [exact Ha | apply Qinv_lt_0_compat, Hb].
Qed.

Lemma div_le_1 (a b : Qc) : 0 < b -> a <= b -> a / b <= 1.
Proof.
  unfold Qclt, Qcle, Qcdiv, Qcmult, Qcinv, Q2Qc. cbn [this].
  rewrite !Qred_correct. intros Hb Hab.
  apply Qle_shift_div_r; [exact Hb | lra].
Qed.

Lemma div_nonneg (a b : Qc) : 0 <= a -> 0 < b -> 0 <= a / b.
Proof.
  unfold Qclt, Qcle, Qcdiv, Qcmult, Qcinv, Q2Qc. cbn [this].
  rewrite !Qred_correct. intros Ha Hb.
  apply Qmult_le_0_compat; [exact Ha |].
  apply Qlt_le_weak, Qinv_lt_0_compat, Hb.
Qed.

Lemma sub_nonneg (a b : Qc) : b <= a -> 0 <= a - b.
Proof.
  unfold Qcle, Qcminus, Qcplus, Qcopp, Q2Qc. cbn [this].
  rewrite !Qred_correct. intros. lra.
Qed.

Lemma sub_le_self (a b : Qc) : 0 <= b -> a - b <= a.
Proof.
  unfold Qcle, Qcminus, Qcplus, Qcopp, Q2Qc. cbn [this].
  rewrite !Qred_correct. intros. lra.
Qed.

Lemma le_add_nonneg (a b : Qc) : 0 <= b -> a <= b + a.
Proof.
  unfold Qcle, Qcplus, Q2Qc. cbn [this]. rewrite !Qred_correct. intros. lra.
Qed.

Lemma mul_le_mul_nonneg (a b c : Qc) : 0 <= c -> a <= b -> a * c <= b * c.
Proof. intros Hc Hab. apply Qcmult_le_compat_r; assumption. Qed.

Lemma qz_100_pos : 0 < Numeric.qz 100.
Proof. vm_compute. reflexivity. Qed.

End QcOrder.

(** ** More on the Kalman hedge ratio and the spread *)

Module KalmanMore.

Import Numeric Frames Frames64 Kalman Spread FramesFacts KalmanFacts.
Local Open Scope Qc_scope.


(** Too little data for the filter: fewer than two entries in either
    series, or fewer than two aligned rows, gives two empty series. *)
Theorem kalman_insufficient_data :
  forall (prices1 prices2 : Series64) (b0 q m : option float),
    ((length prices1 < 2)%nat \/ (length prices2 < 2)%nat ->
     compute_kalman_hedge_ratio prices1 prices2 b0 q m = Return ([], [])) /\
    (forall rows, aligned64 prices1 prices2 = Some rows -> (length rows < 2)%nat ->
     compute_kalman_hedge_ratio prices1 prices2 b0 q m = Return ([], [])).
Proof.
  intros s1 s2 b0 q m. unfold compute_kalman_hedge_ratio. split.
  - intros [H | H]; apply Nat.ltb_lt in H; rewrite H;
      [| rewrite orb_true_r]; reflexivity.
  - intros rows Hal Hn. rewrite Hal. apply Nat.ltb_lt in Hn. rewrite Hn.
    destruct (_ || _); reflexivity.
Qed.

Lemma kalman_insufficient_data_witness :
  compute_kalman_hedge_ratio [(0%Z, 1%float)] demo_prices2 None None None
  = Return ([], []) /\
  compute_kalman_hedge_ratio [(0%Z, 1%float); (1%Z, nan)]
    [(0%Z, 2%float); (1%Z, 3%float)] None None None = Return ([], []).
Proof.
  split.
  - apply (kalman_insufficient_data [(0%Z, 1%float)] demo_prices2 None None None).
    left. simpl. lia.
  - apply (kalman_insufficient_data [(0%Z, 1%float); (1%Z, nan)]
             [(0%Z, 2%float); (1%Z, 3%float)] None None None)
      with (rows := [mkPair 0 1%float 2%float]); [reflexivity | simpl; lia].
Defined.

(** The simple spread is the hedged spread with a hedge ratio of one. *)
Theorem spread_default_is_unit_ratio :
  forall (price1 price2 : Series),
    compute_spread price1 price2 None = compute_spread price1 price2 (Some 1).
Proof.
  intros p1 p2. unfold compute_spread.
  destruct (_ || _); [reflexivity |].
  destruct (aligned p1 p2) as [rows |]; [| reflexivity].
  destruct rows as [| r rest]; [reflexivity |].
  f_equal. apply map_ext. intros o. f_equal. ring.
Qed.



End KalmanMore.

(** ** More on the rolling z-score *)

Module ZScoreMore.

Import Numeric Frames Analytics NumericFacts ZScoreFacts.
Local Open Scope Qc_scope.

Lemma qnat_S (n : nat) : qnat (S n) = qnat n + 1.
Proof.
  unfold qnat, qz. apply Qc_is_canon.
  unfold Qcplus, Q2Qc. cbn [this]. rewrite !Qred_correct.
  rewrite Nat2Z.inj_succ. unfold Z.succ. rewrite inject_Z_plus. reflexivity.
Qed.

Lemma qnat_nonzero (n : nat) : n <> 0%nat -> qnat n <> 0.
Proof.
  intros Hn E. unfold qnat, qz in E. apply Q2Qc_eq_iff in E.
  unfold Qeq in E. simpl in E. lia.
Qed.

(** *** A series that does not move *)

Lemma sum_repeat (c : Qc) (n : nat) : sum (repeat c n) = qnat n * c.
Proof.
  induction n as [| n IH].
  - cbn [repeat sum fold_right]. change (qnat 0) with (Q2Qc 0). ring.
  - cbn [repeat sum fold_right]. fold (sum (repeat c n)). rewrite IH, qnat_S. ring.
Qed.

Lemma present_repeat (c : Qc) (n : nat) :
  present (repeat (Some c) n) = Some (repeat c n).
Proof.
  induction n as [| n IH]; simpl; [reflexivity |]. rewrite IH. reflexivity.
Qed.

Lemma window_at_repeat (v : option Qc) (n w i : nat) :
  (w <= S i)%nat -> (i < n)%nat ->
  window_at w (repeat v n) i = repeat v w.
Proof.
  intros Hw Hi. unfold window_at.
  apply (nth_ext _ _ None None).
  - rewrite length_firstn, length_skipn, !repeat_length. lia.
  - intros k Hk. rewrite length_firstn, length_skipn, repeat_length in Hk.
    rewrite nth_firstn.
    replace (k <? w)%nat with true by (symmetry; apply Nat.ltb_lt; lia).
    rewrite nth_skipn.
    rewrite !nth_repeat_lt by lia. reflexivity.
Qed.

Lemma zscore_of_constant_window (sqrt : Qc -> Qc) (c : Qc) (w : nat) :
  sqrt 0 = 0 ->
  zscore_of_window sqrt (Some c) (repeat (Some c) w) = NaN.
Proof.
  intros Hsqrt. unfold zscore_of_window. rewrite present_repeat.
  destruct w as [| w]; [reflexivity |].
  assert (mean (repeat c (S w)) = Some c) as Hmean.
  { unfold mean. cbn [repeat]. f_equal.
    change (c :: repeat c w) with (repeat c (S w)).
    rewrite sum_repeat, repeat_length. field.
    apply qnat_nonzero. discriminate. }
  unfold std. rewrite Hmean, repeat_length.
  destruct (S w <=? 1)%nat.
  - cbn [osub]. reflexivity.
  - cbn [osub].
    replace (sum (map (fun x => (x - c) * (x - c)) (repeat c (S w)))) with 0.
    + replace (0 / qnat (S w - 1)) with 0 by (unfold Qcdiv; ring).
      rewrite Hsqrt. replace (c - c) with 0 by ring. reflexivity.
    + clear. induction (S w) as [| n IH]; [reflexivity |].
      cbn [repeat map sum fold_right].
      fold (sum (map (fun x => (x - c) * (x - c)) (repeat c n))).
      rewrite <- IH. ring.
Qed.

(** On a series whose observations are all the same number the z-score is
    NaN at every position (zero over a zero deviation), never 0, provided
    the square root of 0 is 0. *)
Theorem compute_zscore_constant_series :
  forall (sqrt : Qc -> Qc) (c : Qc) (n window : nat),
    sqrt 0 = 0 ->
    (window <= n)%nat ->
    compute_zscore sqrt (repeat (Some c) n) window = repeat NaN n.
Proof.
  intros sqrt c n w Hsqrt Hw.
  apply (nth_ext _ _ (Fin 0) NaN).
  - rewrite compute_zscore_length, !repeat_length by (rewrite repeat_length; lia).
    reflexivity.
  - intros i Hi.
    rewrite compute_zscore_length, repeat_length in Hi by (rewrite repeat_length; lia).
    rewrite compute_zscore_nth by (rewrite repeat_length; lia).
    rewrite (nth_repeat NaN n i).
    destruct (S i <? w)%nat eqn:E; [reflexivity |].
    apply Nat.ltb_ge in E.
    rewrite window_at_repeat by lia.
    rewrite (nth_repeat_lt (Some c) None) by lia.
    apply zscore_of_constant_window, Hsqrt.
Qed.

Lemma compute_zscore_constant_series_witness :
  sqrt6 0 = 0 /\ (2 <= 4)%nat /\
  compute_zscore sqrt6 (repeat (Some (qz 7)) 4) 2 = repeat NaN 4.
Proof.
  assert (sqrt6 0 = 0) as Hs by (apply Qc_is_canon; reflexivity).
  split; [exact Hs |]. split; [lia |].
  apply (compute_zscore_constant_series sqrt6 (qz 7) 4 2 Hs). lia.
Defined.

End ZScoreMore.

(** ** More on the backtest *)

Module BacktestMore.

Import Numeric Frames Analytics Backtest NumericFacts ZScoreFacts BacktestFacts ZScoreMore.
Local Open Scope Qc_scope.

Definition is_closed (t : Trade) : Prop := closed t <> None.

(** The equity curve and the trades a result carries. *)
Definition result_equity (r : Result) : list (option Qc) :=
  match r with
  | Empty => []
  | NoTrades eq => eq
  | Full rep => report_equity_curve rep
  end.

Definition result_trades (r : Result) : list Trade :=
  match r with
  | Full rep => report_trades rep
  | _ => []
  end.

(** The profits booked so far. *)
Definition booked (ts : list Trade) : list (option Qc) := map pnl (completed ts).

(** What the loop keeps true: when flat every trade is closed; in a
    position exactly the last trade is open; and the equity is the
    starting capital plus the profits booked. *)
Definition consistent (st : LoopState) : Prop :=
  ((position st = 0%Z /\ Forall is_closed (trades st)) \/
   ((position st = 1%Z \/ position st = (-1)%Z) /\
    exists ts t, trades st = ts ++ [t] /\ Forall is_closed ts /\ closed t = None)) /\
  current_equity st = fold_left oadd (booked (trades st)) (Some starting_capital).

Lemma completed_app (a b : list Trade) : completed (a ++ b) = completed a ++ completed b.
Proof. unfold completed. apply flat_map_app. Qed.

Lemma update_last_app (ts : list Trade) (t : Trade) (e : TradeExit) :
  update_last (ts ++ [t]) e
  = ts ++ [mkTrade (side t) (entry_time t) (entry_price t) (entry_zscore t) (Some e)].
Proof.
  induction ts as [| a rest IH]; [reflexivity |].
  cbn [app update_last]. rewrite IH.
  destruct (rest ++ [t]) eqn:E; [destruct rest; discriminate | reflexivity].
Qed.

Lemma set_last_length (l : list (option Qc)) (v : option Qc) :
  length (set_last l v) = length l.
Proof.
  induction l as [| a rest IH]; [reflexivity |].
  cbn [set_last]. destruct rest; [reflexivity |]. cbn [length] in *. rewrite IH. reflexivity.
Qed.

Lemma set_last_last (l : list (option Qc)) (v d : option Qc) :
  l <> [] -> last (set_last l v) d = v.
Proof.
  induction l as [| a rest IH]; [congruence |]. intros _.
  destruct rest as [| b rest']; [reflexivity |].
  change (set_last (a :: b :: rest') v) with (a :: set_last (b :: rest') v).
  assert (set_last (b :: rest') v <> []) as Hne.
  { intros E. apply (f_equal (@length _)) in E. rewrite set_last_length in E. discriminate. }
  destruct (set_last (b :: rest') v) eqn:E; [congruence |].
  change (last (a :: o :: l) d) with (last (o :: l) d).
  apply IH. discriminate.
Qed.

Lemma booked_closed_length (ts : list Trade) :
  Forall is_closed ts -> length (completed ts) = length ts.
Proof.
  induction 1 as [| t rest Ht Hrest IH]; [reflexivity |].
  unfold completed in *. cbn [flat_map]. rewrite length_app, IH.
  unfold is_closed in Ht. destruct (closed t); [reflexivity | congruence].
Qed.

(** Closing the open trade books exactly its profit. *)
Lemma close_consistent (st : LoopState) (ts : list Trade) (t : Trade)
  (e : TradeExit) :
  trades st = ts ++ [t] -> Forall is_closed ts -> closed t = None ->
  current_equity st = fold_left oadd (booked (trades st)) (Some starting_capital) ->
  Forall is_closed (update_last (trades st) e) /\
  oadd (current_equity st) (pnl e)
  = fold_left oadd (booked (update_last (trades st) e)) (Some starting_capital).
Proof.
  intros Ht Hts Hopen Heq. rewrite Ht in *. rewrite update_last_app. split.
  - apply Forall_app. split; [exact Hts |].
    constructor; [| constructor]. unfold is_closed. simpl. discriminate.
  - unfold booked in *. rewrite completed_app in *.
    unfold completed at 2. cbn [flat_map closed app].
    unfold completed at 2 in Heq. cbn [flat_map] in Heq. rewrite Hopen in Heq.
    cbn [app] in Heq. rewrite app_nil_r in Heq.
    rewrite map_app, fold_left_app. cbn [map fold_left]. rewrite <- Heq. reflexivity.
Qed.

Section AnyThresholds.

Variable entry_threshold exit_threshold : Qc.

Lemma decide_consistent (st : LoopState) (s : Sample) :
  consistent st -> consistent (decide entry_threshold exit_threshold st s).
Proof.
  intros [Hpos Heq]. unfold decide.
  destruct Hpos as [[Hp Hall] | [Hp (ts & t & Ht & Hts & Hopen)]].
  - rewrite Hp. cbn [Z.eqb].
    assert (forall sd, consistent (open_trade sd st (s_time s) (s_price s) (s_z s)))
      as Hopen.
    { intros sd. split.
      - right. split; [destruct sd; [left | right]; reflexivity |].
        exists (trades st), (mkTrade sd (s_time s) (s_price s) (s_z s) None).
        split; [reflexivity |]. split; [exact Hall | reflexivity].
      - cbn [open_trade current_equity trades]. unfold booked.
        rewrite completed_app. unfold completed at 2. cbn [flat_map closed app].
        rewrite app_nil_r. exact Heq. }
    destruct (flt _ _); [apply Hopen |].
    destruct (fgt _ _); [apply Hopen |].
    split; [left; split; assumption | exact Heq].
  - assert ((position st =? 0)%Z = false) as E0
      by (destruct Hp as [-> | ->]; reflexivity).
    rewrite E0.
    destruct (_ || _).
    + destruct (close_consistent st ts t
                  (mkExit (s_time s) (s_price s) (s_z s) (trade_pnl st (s_price s)))
                  Ht Hts Hopen Heq) as [Hc Hb].
      split; [left; split; [reflexivity | exact Hc] | exact Hb].
    + split; [right; split; [exact Hp |]; exists ts, t; auto | exact Heq].
Qed.

Lemma step_consistent (st : LoopState) (s : Sample) :
  consistent st -> consistent (step entry_threshold exit_threshold st s).
Proof.
  intros H. apply (decide_consistent st s) in H.
  unfold step, push_equity. destruct H as [Hp He]. split; assumption.
Qed.

Lemma run_loop_consistent (samples : list Sample) : forall st,
  consistent st -> consistent (run_loop entry_threshold exit_threshold st samples).
Proof.
  induction samples as [| s rest IH]; intros st H; [exact H |].
  unfold run_loop. cbn [fold_left]. apply IH, step_consistent, H.
Qed.

(** After at least one iteration the last equity recorded is the current
    equity. *)
Lemma run_loop_last_equity (samples : list Sample) : forall st,
  samples <> [] ->
  let st' := run_loop entry_threshold exit_threshold st samples in
  equity_curve st' <> [] /\ last (equity_curve st') None = current_equity st'.
Proof.
  induction samples as [| s rest IH]; intros st Hne; [congruence |].
  unfold run_loop. cbn [fold_left].
  destruct rest as [| s' rest'].
  - cbn [fold_left]. unfold step, push_equity. cbn [equity_curve current_equity].
    split; [intros E; destruct (equity_curve _); discriminate |].
    apply last_last.
  - apply IH. discriminate.
Qed.

(** A pass with no sample leaves the trades empty; trades appear only
    after an iteration. *)
Lemma run_loop_trades_need_samples (samples : list Sample) :
  trades (run_loop entry_threshold exit_threshold initial_state samples) <> [] ->
  samples <> [].
Proof. intros H ->. apply H. reflexivity. Qed.

Lemma close_open_position_consistent (st : LoopState) (spread : Series)
  (zscore : list fval) :
  consistent st ->
  let st' := close_open_position st spread zscore in
  Forall is_closed (trades st') /\
  current_equity st' = fold_left oadd (booked (trades st')) (Some starting_capital) /\
  length (equity_curve st') = length (equity_curve st) /\
  (trades st' = [] <-> trades st = []) /\
  (equity_curve st <> [] ->
   last (equity_curve st) None = current_equity st ->
   last (equity_curve st') None = current_equity st').
Proof.
  intros [Hpos Heq]. unfold close_open_position.
  destruct Hpos as [[Hp Hall] | [Hp (ts & t & Ht & Hts & Hopen)]].
  - rewrite Hp. cbn [Z.eqb negb andb].
    repeat split; auto.
  - assert ((position st =? 0)%Z = false) as E0
      by (destruct Hp as [-> | ->]; reflexivity).
    rewrite E0. cbn [negb andb].
    assert (match trades st with [] => false | _ => true end = true) as E1
      by (rewrite Ht; destruct ts; reflexivity).
    rewrite E1.
    set (lastp := last spread (0%Z, None)).
    set (p := trade_pnl st (snd lastp)).
    destruct (close_consistent st ts t
                (mkExit (fst lastp) (snd lastp) (last zscore NaN) p)
                Ht Hts Hopen Heq) as [Hc Hb].
    cbn [trades current_equity equity_curve].
    split; [exact Hc |]. split; [exact Hb |].
    split; [apply set_last_length |].
    split.
    + rewrite Ht, update_last_app. split; intros E; destruct ts; discriminate.
    + intros Hne _. apply set_last_last, Hne.
Qed.

(** The equity curve has one entry per observation from [window] on,
    whatever the thresholds and the path; a spread shorter than the window
    gives the empty result. *)
Theorem run_equity_curve_length :
  forall (sqrt : Qc -> Qc) (spread : Series) (window : nat),
    ((length spread < window)%nat ->
     run sqrt entry_threshold exit_threshold spread window = Empty) /\
    ((window <= length spread)%nat ->
     run sqrt entry_threshold exit_threshold spread window <> Empty /\
     length (result_equity (run sqrt entry_threshold exit_threshold spread window))
     = (length spread - window)%nat).
Proof.
  intros sqrt spread w. unfold run. split.
  - intros H. apply Nat.ltb_lt in H. rewrite H. reflexivity.
  - intros H.
    replace (length spread <? w)%nat with false by (symmetry; apply Nat.ltb_ge; lia).
    set (zscore := compute_zscore sqrt (map snd spread) w).
    set (rows := skipn w (samples_of spread zscore)).
    set (st := run_loop entry_threshold exit_threshold initial_state rows).
    assert (length zscore = length spread) as Hz.
    { unfold zscore. rewrite compute_zscore_length; rewrite length_map; lia. }
    assert (length (equity_curve st) = (length spread - w)%nat) as Hlen.
    { destruct (run_loop_equity entry_threshold exit_threshold rows initial_state)
        as (more & Hm & Hl).
      fold st in Hm. rewrite Hm. cbn [initial_state equity_curve app].
      rewrite Hl. unfold rows. rewrite length_skipn.
      rewrite samples_of_length by exact Hz. reflexivity. }
    assert (consistent st) as Hc.
    { apply run_loop_consistent. split; [left; split; [reflexivity | constructor] |].
      reflexivity. }
    destruct (close_open_position_consistent st spread zscore Hc)
      as (_ & _ & Hl' & _ & _).
    destruct (trades (close_open_position st spread zscore)).
    + split; [discriminate |]. cbn [result_equity]. rewrite Hl'. exact Hlen.
    + split; [discriminate |]. cbn [result_equity report_equity_curve].
      rewrite Hl'. exact Hlen.
Qed.

(** Every trade of a full report is closed: a position still open at the
    end has been closed at the last observation.  The trade count is the
    number of trades, the winners and losers are among them, the final
    equity is the starting capital with the profit of each trade added to
    it in the order the trades were closed, and it is the last entry of
    the equity curve. *)
Theorem run_report_is_consistent :
  forall (sqrt : Qc -> Qc) (spread : Series) (window : nat) (rep : Report),
    run sqrt entry_threshold exit_threshold spread window = Full rep ->
    Forall is_closed (report_trades rep) /\
    report_trades rep <> [] /\
    total_trades rep = length (report_trades rep) /\
    (winning_trades rep + losing_trades rep <= total_trades rep)%nat /\
    final_equity rep
    = fold_left oadd (map pnl (completed (report_trades rep))) (Some starting_capital) /\
    last (report_equity_curve rep) None = final_equity rep.
Proof.
  intros sqrt spread w rep. unfold run.
  destruct (length spread <? w)%nat; [discriminate |].
  set (zscore := compute_zscore sqrt (map snd spread) w).
  set (rows := skipn w (samples_of spread zscore)).
  set (st := run_loop entry_threshold exit_threshold initial_state rows).
  assert (consistent st) as Hc.
  { apply run_loop_consistent. split; [left; split; [reflexivity | constructor] |].
    reflexivity. }
  destruct (close_open_position_consistent st spread zscore Hc)
    as (Hall & Heq & _ & Hiff & Hlast).
  set (st' := close_open_position st spread zscore) in *.
  remember (trades st') as T eqn:Et.
  destruct T as [| t0 ts0]; [discriminate |].
  rewrite Et. intros H. injection H as <-.
  cbn [report_trades total_trades winning_trades losing_trades final_equity
       total_pnl report_equity_curve].
  symmetry in Et. rewrite <- Et in Hall, Heq, Hiff.
  split; [exact Hall |].
  split; [rewrite Et; discriminate |].
  split; [apply booked_closed_length, Hall |].
  split.
  { set (pnls := map pnl (completed (trades st'))).
    assert (length (completed (trades st')) = length pnls) as ->
      by (unfold pnls; rewrite length_map; reflexivity).
    clear. induction pnls as [| p rest IH]; [reflexivity |].
    cbn [filter]. destruct p as [v |]; cbn [positive negative].
    - destruct (Qcltb 0 v) eqn:E1, (Qcltb v 0) eqn:E2; cbn [length]; try lia.
      apply Qcltb_lt in E1, E2. exfalso.
      apply (Qclt_not_le _ _ E1), Qclt_le_weak, E2.
    - cbn [length]. lia. }
  split; [exact Heq |].
  assert (trades st <> []) as Hne.
  { intros E. apply Hiff in E. rewrite Et in E. discriminate. }
  apply run_loop_trades_need_samples in Hne.
  destruct (run_loop_last_equity rows initial_state Hne) as [Hq Hl].
  apply Hlast; assumption.
Qed.

(** A z-score of NaN neither opens nor closes a position. *)
Lemma decide_nan (st : LoopState) (s : Sample) :
  s_z s = NaN -> decide entry_threshold exit_threshold st s = st.
Proof.
  intros Hz. unfold decide. rewrite Hz. cbn [flt fgt fge fle].
  destruct (position st =? 0)%Z; [reflexivity |].
  rewrite !andb_false_r. reflexivity.
Qed.

Lemma run_loop_nan (samples : list Sample) : forall st,
  Forall (fun s => s_z s = NaN) samples ->
  run_loop entry_threshold exit_threshold st samples
  = mkLoop (position st) (trades st)
           (equity_curve st ++ repeat (current_equity st) (length samples))
           (current_equity st).
Proof.
  induction samples as [| s rest IH]; intros st Hall.
  - cbn [run_loop fold_left length repeat]. rewrite app_nil_r. destruct st; reflexivity.
  - inversion Hall as [| s' rest' Hs Hrest]; subst s' rest'.
    change (run_loop entry_threshold exit_threshold st (s :: rest))
      with (run_loop entry_threshold exit_threshold
              (step entry_threshold exit_threshold st s) rest).
    unfold step. rewrite (decide_nan st s Hs). rewrite (IH _ Hrest).
    unfold push_equity. cbn [position trades equity_curve current_equity length repeat].
    rewrite <- app_assoc. reflexivity.
Qed.

(** A spread that does not move never trades: its z-scores are NaN, so the
    result has no trades and an equity curve that stays at the starting
    capital, whatever the thresholds. *)
Theorem run_constant_spread_never_trades :
  forall (sqrt : Qc -> Qc) (index : list Z) (c : Qc) (window : nat),
    sqrt 0 = 0 ->
    (window <= length index)%nat ->
    let spread := combine index (repeat (Some c) (length index)) in
    run sqrt entry_threshold exit_threshold spread window
    = NoTrades (repeat (Some starting_capital) (length index - window)).
Proof.
  intros sqrt index c w Hsqrt Hw spread.
  assert (length spread = length index) as Hl.
  { unfold spread. rewrite length_combine, repeat_length. lia. }
  assert (map snd spread = repeat (Some c) (length index)) as Hv.
  { unfold spread. clear. induction index as [| i rest IH]; [reflexivity |].
    cbn [length repeat combine map snd]. f_equal. exact IH. }
  unfold run. rewrite Hl, Hv.
  replace (length index <? w)%nat with false by (symmetry; apply Nat.ltb_ge; lia).
  rewrite (compute_zscore_constant_series sqrt c (length index) w Hsqrt Hw).
  set (rows := skipn w (samples_of spread (repeat NaN (length index)))).
  assert (Forall (fun s => s_z s = NaN) rows) as Hnan.
  { assert (map s_z rows = skipn w (repeat NaN (length index))) as Hm.
    { unfold rows. rewrite <- skipn_map, samples_of_z; [reflexivity |].
      rewrite repeat_length. symmetry. exact Hl. }
    rewrite Forall_forall. intros s Hs.
    apply (in_map s_z) in Hs. rewrite Hm in Hs.
    assert (In (s_z s) (repeat NaN (length index))) as Hin.
    { rewrite <- (firstn_skipn w). apply in_or_app. right. exact Hs. }
    apply repeat_spec in Hin. exact Hin. }
  rewrite (run_loop_nan rows initial_state Hnan).
  assert (length rows = (length index - w)%nat) as Hrl.
  { unfold rows. rewrite length_skipn, samples_of_length.
    - rewrite Hl. reflexivity.
    - rewrite repeat_length. symmetry. exact Hl. }
  unfold close_open_position. cbn [position initial_state Z.eqb negb andb trades
                                   equity_curve current_equity app].
  rewrite Hrl. reflexivity.
Qed.

End AnyThresholds.

Lemma run_equity_curve_length_witness :
  (16 <= length demo_spread)%nat /\
  length (result_equity (run sqrt6 (qz 1) (qfrac 1 2) demo_spread 16)) = 5%nat /\
  run sqrt6 (qz 1) (qfrac 1 2) (firstn 3 demo_spread) 16 = Empty.
Proof.
  assert (16 <= length demo_spread)%nat as Hw by (vm_compute; lia).
  split; [exact Hw |]. split.
  - destruct (run_equity_curve_length (qz 1) (qfrac 1 2) sqrt6 demo_spread 16)
      as [_ H]. destruct (H Hw) as [_ Hlen]. exact Hlen.
  - destruct (run_equity_curve_length (qz 1) (qfrac 1 2) sqrt6 (firstn 3 demo_spread) 16)
      as [H _]. apply H. vm_compute. lia.
Defined.

Lemma run_report_is_consistent_witness :
  exists rep,
    run sqrt6 (qz 2) 0 demo_spread 16 = Full rep /\
    Forall is_closed (report_trades rep) /\
    total_trades rep = length (report_trades rep) /\
    final_equity rep
    = fold_left oadd (map pnl (completed (report_trades rep))) (Some starting_capital).
Proof.
  assert (exists rep, run sqrt6 (qz 2) 0 demo_spread 16 = Full rep) as [rep Hrun]
    by (eexists; vm_compute; reflexivity).
  exists rep. split; [exact Hrun |].
  destruct (run_report_is_consistent (qz 2) 0 sqrt6 demo_spread 16 rep Hrun)
    as (H1 & _ & H2 & _ & H3 & _).
  split; [exact H1 |]. split; [exact H2 | exact H3].
Defined.

Lemma run_constant_spread_never_trades_witness :
  sqrt6 0 = 0 /\ (2 <= length [1%Z; 2%Z; 3%Z; 4%Z])%nat /\
  run sqrt6 (qz 2) 0 (combine [1%Z; 2%Z; 3%Z; 4%Z] (repeat (Some (qz 9)) 4)) 2
  = NoTrades (repeat (Some starting_capital) 2).
Proof.
  assert (sqrt6 0 = 0) as Hs by (apply Qc_is_canon; reflexivity).
  split; [exact Hs |]. split; [simpl; lia |].
  apply (run_constant_spread_never_trades (qz 2) 0 sqrt6 [1%Z; 2%Z; 3%Z; 4%Z] (qz 9) 2 Hs).
  simpl. lia.
Defined.

End BacktestMore.

(** ** The maximum drawdown *)

Module DrawdownFacts.

Import Numeric Drawdown NumericFacts QcOrder.
Local Open Scope Qc_scope.

Lemma hundred_nonneg : 0 <= qz 100.
Proof. apply Qclt_le_weak, qz_100_pos. Qed.

(** The drop from a positive peak to a positive equity below it, in per
    cent, lies between 0 and 100. *)
Lemma drop_bounds (peak equity : Qc) :
  0 < equity -> equity <= peak ->
  0 <= (peak - equity) / peak * qz 100 /\
  (peak - equity) / peak * qz 100 <= qz 100.
Proof.
  intros He Hle.
  assert (0 < peak) as Hp by (eapply Qclt_le_trans; eassumption).
  split.
  - replace 0 with (0 * qz 100) by ring.
    apply mul_le_mul_nonneg; [apply hundred_nonneg |].
    apply div_nonneg; [apply sub_nonneg, Hle | exact Hp].
  - replace (qz 100) with (1 * qz 100) at 2 by ring.
    apply mul_le_mul_nonneg; [apply hundred_nonneg |].
    apply div_le_1; [exact Hp |].
    apply sub_le_self, Qclt_le_weak, He.
Qed.

Lemma new_peak (peak equity : Qc) :
  equity <= (if Qcltb peak equity then equity else peak) /\
  peak <= (if Qcltb peak equity then equity else peak).
Proof.
  destruct (Qcltb peak equity) eqn:E.
  - apply Qcltb_lt in E. split; [apply Qcle_refl | apply Qclt_le_weak, E].
  - split; [| apply Qcle_refl].
    destruct (Qclt_le_dec peak equity) as [H | H]; [| exact H].
    apply Qcltb_lt in H. congruence.
Qed.

Lemma drawdown_loop_bounds (curve : list Qc) : forall peak max_dd,
  Forall (fun e => 0 < e) curve ->
  0 <= max_dd -> max_dd <= qz 100 ->
  exists dd, drawdown_loop peak max_dd curve = Return dd /\
             0 <= dd /\ dd <= qz 100.
Proof.
  induction curve as [| e rest IH]; intros peak max_dd Hpos H0 H100.
  - exists max_dd. repeat split; assumption.
  - inversion Hpos as [| e' rest' He Hrest]; subst e' rest'.
    cbn [drawdown_loop].
    destruct (new_peak peak e) as [Hge _].
    set (peak' := if Qcltb peak e then e else peak) in *.
    assert (Qceqb peak' 0 = false) as ->.
    { destruct (Qceqb peak' 0) eqn:E; [| reflexivity].
      apply Qceqb_eq in E. rewrite E in Hge.
      exfalso. apply (Qclt_not_le _ _ He Hge). }
    destruct (drop_bounds peak' e He Hge) as [Hd0 Hd100].
    apply IH; [exact Hrest | |];
      destruct (Qcltb max_dd _); assumption.
Qed.

(** On an equity curve of positive numbers the maximum drawdown is
    computed, and is a percentage between 0 and 100. *)
Theorem max_drawdown_is_percentage :
  forall (equity_curve : list Qc),
    Forall (fun e => 0 < e) equity_curve ->
    exists dd, calculate_max_drawdown equity_curve = Return dd /\
               0 <= dd /\ dd <= qz 100.
Proof.
  intros curve Hpos. unfold calculate_max_drawdown.
  destruct curve as [| e rest].
  - exists 0. split; [reflexivity |]. split; [apply Qcle_refl | apply hundred_nonneg].
  - apply drawdown_loop_bounds; [exact Hpos | apply Qcle_refl | apply hundred_nonneg].
Qed.

Lemma max_drawdown_is_percentage_witness :
  let curve := [qz 100; qz 120; qz 90; qz 130] in
  Forall (fun e => 0 < e) curve /\
  exists dd, calculate_max_drawdown curve = Return dd /\
             0 <= dd /\ dd <= qz 100 /\ dd = qz 25.
Proof.
  intros curve.
  assert (Forall (fun e => 0 < e) curve) as Hpos
    by (repeat constructor; vm_compute; reflexivity).
  destruct (max_drawdown_is_percentage curve Hpos) as (dd & Hrun & H0 & H100).
  split; [exact Hpos |]. exists dd.
  split; [exact Hrun |]. split; [exact H0 |]. split; [exact H100 |].
  assert (calculate_max_drawdown curve = Return (qz 25)) as Hval.
  { vm_compute. f_equal. apply Qc_is_canon. reflexivity. }
  rewrite Hval in Hrun. injection Hrun as <-. reflexivity.
Defined.

(** On a curve that never falls below the running peak the loop finds no
    drop, and stops with an error at the first zero. *)
Lemma drawdown_loop_rising (curve : list Qc) : forall peak,
  Forall (fun e => peak <= e) curve ->
  StronglySorted Qcle curve ->
  (In 0 curve -> drawdown_loop peak 0 curve = Raise "ZeroDivisionError") /\
  (~ In 0 curve -> drawdown_loop peak 0 curve = Return 0).
Proof.
  induction curve as [| e rest IH]; intros peak Hge Hs.
  - split; [intros [] | reflexivity].
  - inversion Hge as [| e' rest' Hpe Hrest]; subst e' rest'.
    apply StronglySorted_inv in Hs. destruct Hs as [Hs He].
    cbn [drawdown_loop].
    assert ((if Qcltb peak e then e else peak) = e) as ->.
    { destruct (Qcltb peak e) eqn:E; [reflexivity |].
      apply Qcle_antisym; [exact Hpe |].
      destruct (Qclt_le_dec peak e) as [H | H]; [| exact H].
      apply Qcltb_lt in H. congruence. }
    destruct (Qceqb e 0) eqn:E0.
    + apply Qceqb_eq in E0. split; [reflexivity |].
      intros Hnot. exfalso. apply Hnot. left. exact E0.
    + replace ((e - e) / e * qz 100) with 0 by (unfold Qcdiv; ring).
      replace (Qcltb 0 0) with false by (symmetry; apply Qcltb_false_le, Qcle_refl).
      destruct (IH e He Hs) as [Hraise Hzero].
      split.
      * intros [H | H]; [| apply Hraise, H].
        apply Qceqb_eq in H. congruence.
      * intros Hnot. apply Hzero. intros H. apply Hnot. right. exact H.
Qed.

(** An equity curve that never falls has a maximum drawdown of zero, unless
    it passes through zero: dividing by a peak of zero then raises. *)
Theorem max_drawdown_of_rising_curve :
  forall (equity_curve : list Qc),
    StronglySorted Qcle equity_curve ->
    (In 0 equity_curve ->
     calculate_max_drawdown equity_curve = Raise "ZeroDivisionError") /\
    (~ In 0 equity_curve -> calculate_max_drawdown equity_curve = Return 0).
Proof.
  intros curve Hs. unfold calculate_max_drawdown.
  destruct curve as [| e rest]; [split; [intros [] | reflexivity] |].
  apply drawdown_loop_rising; [| exact Hs].
  apply StronglySorted_inv in Hs. destruct Hs as [_ He].
  constructor; [apply Qcle_refl | exact He].
Qed.

Lemma max_drawdown_of_rising_curve_witness :
  (StronglySorted Qcle [qz 100; qz 100; qz 130] /\
   calculate_max_drawdown [qz 100; qz 100; qz 130] = Return 0) /\
  (StronglySorted Qcle [qz 0; qz 10] /\
   calculate_max_drawdown [qz 0; qz 10] = Raise "ZeroDivisionError").
Proof.
  assert (StronglySorted Qcle [qz 100; qz 100; qz 130]) as Hs
    by (repeat constructor; vm_compute; discriminate).
  assert (StronglySorted Qcle [qz 0; qz 10]) as Hz
    by (repeat constructor; vm_compute; discriminate).
  split.
  - split; [exact Hs |].
    apply (max_drawdown_of_rising_curve _ Hs).
    intros [H | [H | [H | []]]]; vm_compute in H; discriminate.
  - split; [exact Hz |].
    apply (max_drawdown_of_rising_curve _ Hz).
    left. apply Qc_is_canon. reflexivity.
Defined.

End DrawdownFacts.

(** ** More on resampling *)

Module SamplerMore.

Import Numeric Config Sampler NumericFacts SamplerFacts StorageFacts.
Local Open Scope Z_scope.

Definition raw_key (r : RawBar) : string * Z := (r_symbol r, r_timestamp r).
Definition bar_key (b : Bar) : string * Z := (symbol b, timestamp b).

Lemma distinct_In (x : string) (l : list string) : In x (distinct l) <-> In x l.
Proof.
  induction l as [| y t IH]; simpl; [tauto |].
  destruct (existsb (String.eqb y) t) eqn:E.
  - rewrite IH. split; [tauto |]. intros [<- | H]; [| exact H].
    apply existsb_exists in E. destruct E as (z & Hz & Ez).
    apply String.eqb_eq in Ez. subst z. exact Hz.
  - simpl. rewrite IH. tauto.
Qed.

Lemma distinct_NoDup (l : list string) : NoDup (distinct l).
Proof.
  induction l as [| y t IH]; simpl; [constructor |].
  destruct (existsb (String.eqb y) t) eqn:E; [exact IH |].
  constructor; [| exact IH].
  rewrite distinct_In. intros Hin.
  assert (existsb (String.eqb y) t = true) as E'.
  { apply existsb_exists. exists y. split; [exact Hin | apply String.eqb_refl]. }
  congruence.
Qed.

Lemma group_keys_NoDup (ticks : list Tick) : NoDup (group_keys ticks).
Proof.
  unfold group_keys.
  eapply Permutation_NoDup; [apply Permutation_sym, isort_perm | apply distinct_NoDup].
Qed.

Lemma group_keys_In (ticks : list Tick) (sym : string) :
  In sym (group_keys ticks) <-> exists t, In t ticks /\ t_symbol t = sym.
Proof.
  unfold group_keys. split.
  - intros H. apply (Permutation_in _ (isort_perm _ _ _)) in H.
    apply distinct_In, in_map_iff in H. destruct H as (t & E & Ht).
    exists t. split; assumption.
  - intros (t & Ht & E).
    apply (Permutation_in _ (Permutation_sym (isort_perm _ _ _))).
    apply distinct_In, in_map_iff. exists t. split; assumption.
Qed.

Lemma bins_NoDup (ms : Z) (sorted : list Tick) : ms <> 0 -> NoDup (bins ms sorted).
Proof.
  intros Hms. unfold bins. destruct sorted as [| t0 rest]; [constructor |].
  set (lo := bin_start ms (t_timestamp t0)).
  generalize (S (Z.to_nat ((bin_start ms (t_timestamp (last (t0 :: rest) t0)) - lo) / ms))).
  intros n. generalize 0%nat as from.
  induction n as [| n IH]; intros from; simpl; [constructor |].
  constructor; [| apply IH].
  rewrite in_map_iff. intros (k & E & Hk). apply in_seq in Hk.
  assert (Z.of_nat k * ms = Z.of_nat from * ms) as E' by lia.
  apply Z.mul_reg_r in E'; [lia | exact Hms].
Qed.

Lemma dropna_key_In (rows : list RawBar) (b : Bar) :
  In b (dropna rows) -> In (bar_key b) (map raw_key rows).
Proof.
  intros H. apply dropna_In in H. destruct H as (r & Hr & Ets & Esym & _).
  apply in_map_iff. exists r. split; [| exact Hr].
  unfold raw_key, bar_key. congruence.
Qed.

Lemma dropna_NoDup (rows : list RawBar) :
  NoDup (map raw_key rows) -> NoDup (map bar_key (dropna rows)).
Proof.
  induction rows as [| r t IH]; simpl; [constructor |].
  intros Hnd. inversion Hnd as [| k ks Hk Hks]; subst k ks.
  destruct (r_open r), (r_high r), (r_low r), (r_close r); try (apply IH, Hks).
  simpl. constructor; [| apply IH, Hks].
  intros Hin. apply Hk. apply in_map_iff in Hin. destruct Hin as (b & E & Hb).
  apply dropna_key_In in Hb. rewrite E in Hb. exact Hb.
Qed.

Lemma resample_group_keys (sym : string) (ms : Z) (group : list Tick) :
  map raw_key (resample_group sym ms group)
  = map (pair sym) (bins ms (by_time group)).
Proof. unfold resample_group. rewrite map_map. reflexivity. Qed.

Lemma grouped_keys_NoDup (ms : Z) (f : string -> list Tick) (keys : list string) :
  ms <> 0 -> NoDup keys ->
  NoDup (map raw_key (flat_map (fun sym => resample_group sym ms (f sym)) keys)).
Proof.
  intros Hms. induction 1 as [| k ks Hk Hks IH]; simpl; [constructor |].
  rewrite map_app. apply NoDup_app.
  - rewrite resample_group_keys.
    apply Finite.Injective_map_NoDup; [| apply bins_NoDup, Hms].
    intros a b E. injection E as ->. reflexivity.
  - exact IH.
  - intros [s ts] H1 H2. rewrite resample_group_keys in H1.
    apply in_map_iff in H1. destruct H1 as (x & E & _). injection E as <- <-.
    apply in_map_iff in H2. destruct H2 as (r & E & Hr).
    apply in_flat_map in Hr. destruct Hr as (sym & Hsym & Hr).
    unfold resample_group in Hr. apply in_map_iff in Hr.
    destruct Hr as (start & <- & _). unfold raw_key in E. simpl in E.
    injection E as -> _. contradiction.
Qed.

(** There is at most one bar per symbol and interval: no two bars of a
    result share their symbol and timestamp. *)
Theorem resample_one_bar_per_interval :
  forall (ticks : list Tick) (timeframe : string) (bars : list Bar),
    resample_ticks ticks timeframe = Return bars ->
    NoDup (map bar_key bars).
Proof.
  intros ticks tf bars. unfold resample_ticks.
  destruct (timeframe_seconds TIMEFRAMES tf) as [secs |] eqn:Etf; [| discriminate].
  apply configured_positive in Etf.
  destruct ticks as [| t0 rest] eqn:E.
  - intros H. injection H as <-. constructor.
  - rewrite <- E. intros H. injection H as <-.
    apply dropna_NoDup, grouped_keys_NoDup; [lia | apply group_keys_NoDup].
Qed.

Lemma resample_one_bar_per_interval_witness :
  exists bars,
    resample_ticks demo_ticks "1m" = Return bars /\
    NoDup (map bar_key bars).
Proof.
  assert (exists bars, resample_ticks demo_ticks "1m" = Return bars) as [bars Hrun]
    by (eexists; vm_compute; reflexivity).
  exists bars. split; [exact Hrun |].
  apply (resample_one_bar_per_interval demo_ticks "1m" bars Hrun).
Defined.

End SamplerMore.

(** ** Resampling: which ticks a bar holds *)

Module SamplerTicks.

Import Numeric Config Sampler NumericFacts SamplerFacts StorageFacts SamplerMore.
Local Open Scope Z_scope.








End SamplerTicks.

(** ** Resampling: no tick is lost or counted twice *)

Module SamplerCount.

Import Numeric Config Sampler NumericFacts SamplerFacts StorageFacts SamplerMore
       SamplerTicks.
Local Open Scope Z_scope.

Section Counting.

Variables A K : Type.
Variable key : A -> K.
Variable eqb : K -> K -> bool.
Hypothesis eqb_spec : forall a b, eqb a b = true <-> a = b.

Lemma indicator_sum (k : K) (B : list K) :
  NoDup B -> In k B ->
  list_sum (map (fun b => if eqb k b then 1%nat else 0%nat) B) = 1%nat.
Proof.
  induction 1 as [| b t Hb Hnd IH]; intros Hin; [contradiction |].
  simpl. destruct (eqb k b) eqn:E.
  - apply eqb_spec in E. subst b.
    assert (list_sum (map (fun b => if eqb k b then 1%nat else 0%nat) t) = 0%nat) as ->.
    { clear -Hb eqb_spec. induction t as [| c t IH]; [reflexivity |].
      simpl. destruct (eqb k c) eqn:E.
      - apply eqb_spec in E. subst c. exfalso. apply Hb. left. reflexivity.
      - apply IH. intros H. apply Hb. right. exact H. }
    reflexivity.
  - destruct Hin as [Hbk | Hin].
    + assert (eqb k b = true) as E' by (apply eqb_spec; symmetry; exact Hbk).
      congruence.
    + rewrite (IH Hin). reflexivity.
Qed.

(** Sorting a list into the classes of a duplicate-free list of keys that
    covers it counts every element once. *)
Lemma count_partition (B : list K) (l : list A) :
  NoDup B -> (forall x, In x l -> In (key x) B) ->
  list_sum (map (fun b => length (filter (fun x => eqb (key x) b) l)) B) = length l.
Proof.
  intros Hnd. induction l as [| x t IH]; intros Hcov.
  - simpl. clear. induction B as [| b B' IHB]; [reflexivity | exact IHB].
  - assert (forall b,
              length (filter (fun y => eqb (key y) b) (x :: t))
              = ((if eqb (key x) b then 1 else 0)
                 + length (filter (fun y => eqb (key y) b) t))%nat) as Hstep.
    { intros b. simpl. destruct (eqb (key x) b); reflexivity. }
    rewrite (map_ext _ _ Hstep).
    assert (forall (f g : K -> nat) (L : list K),
              list_sum (map (fun b => (f b + g b)%nat) L)
              = (list_sum (map f L) + list_sum (map g L))%nat) as Hsplit.
    { intros f g L. induction L as [| c L' IHL]; [reflexivity |].
      simpl. rewrite IHL. lia. }
    rewrite Hsplit, indicator_sum, IH.
    + reflexivity.
    + intros y Hy. apply Hcov. right. exact Hy.
    + exact Hnd.
    + apply Hcov. left. reflexivity.
Qed.

End Counting.

Lemma bin_start_mono (ms a b : Z) : 0 < ms -> a <= b -> bin_start ms a <= bin_start ms b.
Proof.
  intros Hms Hab. unfold bin_start.
  apply Z.mul_le_mono_nonneg_r; [lia |]. apply Z.div_le_mono; lia.
Qed.

(** Every tick of a time-ordered group falls in one of the group's bins. *)
Lemma bins_cover (ms : Z) (sorted : list Tick) :
  0 < ms ->
  StronglySorted (fun a b => t_timestamp a <= t_timestamp b) sorted ->
  forall t, In t sorted -> In (bin_start ms (t_timestamp t)) (bins ms sorted).
Proof.
  intros Hms Hs t Ht. unfold bins.
  destruct sorted as [| t0 rest]; [contradiction |].
  set (tl := last (t0 :: rest) t0).
  assert (t_timestamp t0 <= t_timestamp t) as Hlo.
  { apply StronglySorted_inv in Hs. destruct Hs as [_ Hf].
    destruct Ht as [<- | Ht]; [lia |].
    rewrite Forall_forall in Hf. apply Hf, Ht. }
  assert (t_timestamp t <= t_timestamp tl) as Hhi.
  { assert (t0 :: rest <> []) as Hne by discriminate.
    destruct (exists_last Hne) as (init & ml & E).
    assert (tl = ml) as -> by (unfold tl; rewrite E; apply last_last).
    rewrite E in Hs, Ht. apply in_app_or in Ht.
    destruct Ht as [Ht | [<- | []]]; [| lia].
    apply (StronglySorted_app_cross _ _ _ Hs t ml Ht). left. reflexivity. }
  apply in_map_iff.
  set (k := t_timestamp t / ms - t_timestamp t0 / ms).
  assert (0 <= k) as Hk0 by (unfold k; pose proof (Z.div_le_mono _ _ ms Hms Hlo); lia).
  assert ((bin_start ms (t_timestamp tl) - bin_start ms (t_timestamp t0)) / ms
          = t_timestamp tl / ms - t_timestamp t0 / ms) as Hspan.
  { unfold bin_start. rewrite <- Z.mul_sub_distr_r. apply Z.div_mul. lia. }
  exists (Z.to_nat k). split.
  - unfold bin_start. rewrite Z2Nat.id by exact Hk0. unfold k. ring.
  - apply in_seq. rewrite Hspan.
    pose proof (Z.div_le_mono _ _ ms Hms Hhi). unfold k. lia.
Qed.

Lemma by_time_sorted (group : list Tick) :
  StronglySorted (fun a b => t_timestamp a <= t_timestamp b) (by_time group).
Proof.
  unfold by_time.
  eapply StronglySorted_weaken; [| apply isort_sorted].
  - intros a b H. apply Z.leb_le, H.
  - intros a b. rewrite !Z.leb_le. lia.
  - intros a b c. rewrite !Z.leb_le. lia.
Qed.

(** The raw rows of one group count every tick of the group once. *)
Lemma resample_group_count (sym : string) (ms : Z) (group : list Tick) :
  0 < ms ->
  list_sum (map r_trade_count (resample_group sym ms group)) = length group.
Proof.
  intros Hms. unfold resample_group. rewrite map_map. cbn [aggregate r_trade_count].
  rewrite <- (Permutation_length (isort_perm _ (fun a b => t_timestamp a <=? t_timestamp b) group)).
  fold (by_time group).
  apply (count_partition Tick Z (fun t => bin_start ms (t_timestamp t)) Z.eqb Z.eqb_eq).
  - apply bins_NoDup. lia.
  - apply bins_cover; [exact Hms | apply by_time_sorted].
Qed.

(** A raw row with no open has no tick; one with an open has all four
    prices. *)
Definition coherent (r : RawBar) : Prop :=
  match r_open r with
  | None => r_trade_count r = 0%nat
  | Some _ => r_high r <> None /\ r_low r <> None /\ r_close r <> None
  end.

Lemma aggregate_coherent (sym : string) (ms start : Z) (sorted : list Tick) :
  coherent (aggregate sym ms start sorted).
Proof.
  unfold coherent, aggregate. cbn [r_open r_high r_low r_close r_trade_count].
  destruct (filter (in_bin ms start) sorted) as [| m rest]; [reflexivity |].
  cbn [map first hd_error]. repeat split.
  - simpl. destruct (maximum (map price rest)); discriminate.
  - simpl. destruct (minimum (map price rest)); discriminate.
  - unfold last_. change (price m :: map price rest) with (map price (m :: rest)).
    destruct (rev (map price (m :: rest))) eqn:E; [| discriminate].
    apply (f_equal (@length _)) in E. rewrite length_rev in E. discriminate.
Qed.

Lemma dropna_count (rows : list RawBar) :
  Forall coherent rows ->
  list_sum (map trade_count (dropna rows)) = list_sum (map r_trade_count rows).
Proof.
  assert (forall (a : nat) (l : list nat), list_sum (a :: l) = (a + list_sum l)%nat)
    as Hcons by reflexivity.
  induction 1 as [| r t Hr Ht IH]; [reflexivity |].
  cbn [dropna map]. rewrite Hcons. unfold coherent in Hr.
  destruct (r_open r) as [o |].
  - destruct Hr as (Hh & Hl & Hc).
    destruct (r_high r) as [h |]; [| congruence].
    destruct (r_low r) as [l |]; [| congruence].
    destruct (r_close r) as [c |]; [| congruence].
    cbn [map]. rewrite Hcons, IH. reflexivity.
  - rewrite IH, Hr. reflexivity.
Qed.

(** The trade counts of the bars of a result add up to the number of
    ticks given: every tick is counted in exactly one bar. *)
Theorem resample_conserves_ticks :
  forall (ticks : list Tick) (timeframe : string) (bars : list Bar),
    resample_ticks ticks timeframe = Return bars ->
    list_sum (map trade_count bars) = length ticks.
Proof.
  intros ticks tf bars. unfold resample_ticks.
  destruct (timeframe_seconds TIMEFRAMES tf) as [secs |] eqn:Etf; [| discriminate].
  apply configured_positive in Etf.
  destruct ticks as [| t0 rest] eqn:E.
  - intros H. injection H as <-. reflexivity.
  - rewrite <- E. intros H. injection H as <-.
    set (ms := secs * 1000).
    rewrite dropna_count.
    + assert (forall keys,
                list_sum (map r_trade_count
                  (flat_map (fun sym => resample_group sym ms
                     (filter (fun t => String.eqb (t_symbol t) sym) ticks)) keys))
                = list_sum (map (fun sym =>
                     length (filter (fun t => String.eqb (t_symbol t) sym) ticks)) keys))
        as Hsum.
      { induction keys as [| k ks IH]; [reflexivity |].
        cbn [flat_map map].
        change (list_sum (?a :: ?l)) with (a + list_sum l)%nat.
        rewrite map_app, list_sum_app, IH.
        rewrite resample_group_count by (unfold ms; lia). reflexivity. }
      rewrite Hsum.
      apply (count_partition Tick string t_symbol String.eqb String.eqb_eq).
      * apply group_keys_NoDup.
      * intros t Ht. apply group_keys_In. exists t. split; [exact Ht | reflexivity].
    + rewrite Forall_forall. intros r Hr.
      apply in_flat_map in Hr. destruct Hr as (sym & _ & Hr).
      unfold resample_group in Hr. apply in_map_iff in Hr.
      destruct Hr as (start & <- & _). apply aggregate_coherent.
Qed.

Lemma resample_conserves_ticks_witness :
  exists bars,
    resample_ticks demo_ticks "1m" = Return bars /\
    list_sum (map trade_count bars) = 3%nat.
Proof.
  assert (exists bars, resample_ticks demo_ticks "1m" = Return bars) as [bars Hrun]
    by (eexists; vm_compute; reflexivity).
  exists bars. split; [exact Hrun |].
  apply (resample_conserves_ticks demo_ticks "1m" bars Hrun).
Defined.

End SamplerCount.

(** ** More on the store *)

Module StorageMore.

Import Numeric Config Sampler Storage StorageReads StorageFacts SamplerMore.
Local Open Scope Z_scope.

(** The latest price of a symbol: none when the symbol has no tick, and
    otherwise the price of a stored tick of the symbol that no other is
    more recent than. *)
Theorem latest_price_is_most_recent :
  forall (db : DataStorage) (sym : string),
    (get_latest_price db sym = None <->
     forall t, In t (ticks_table db) -> t_symbol t <> sym) /\
    (forall p, get_latest_price db sym = Some p ->
       exists t, In t (ticks_table db) /\ t_symbol t = sym /\ price t = p /\
         forall t', In t' (ticks_table db) -> t_symbol t' = sym ->
                    t_timestamp t' <= t_timestamp t).
Proof.
  intros db sym. unfold get_latest_price.
  set (rows := filter (of_symbol sym) (ticks_table db)).
  pose proof (order_desc_sorted Tick t_timestamp rows) as Hs.
  assert (Permutation (order_by_timestamp_desc t_timestamp rows) rows) as Hperm
    by apply isort_perm.
  assert (forall t, In t rows <-> In t (ticks_table db) /\ t_symbol t = sym) as Hrows.
  { intros t. unfold rows. rewrite filter_In. unfold of_symbol.
    rewrite String.eqb_eq. tauto. }
  destruct (order_by_timestamp_desc t_timestamp rows) as [| t0 rest] eqn:E.
  - split.
    + split; [| reflexivity]. intros _ t Ht Hsym.
      assert (In t rows) as Hin by (apply Hrows; tauto).
      apply (Permutation_in _ (Permutation_sym Hperm)) in Hin. contradiction.
    + discriminate.
  - assert (In t0 rows) as H0 by (apply (Permutation_in _ Hperm); left; reflexivity).
    apply Hrows in H0. destruct H0 as [H0 Hsym0].
    split.
    + split; [discriminate |]. intros Hnone. exfalso. apply (Hnone t0 H0 Hsym0).
    + intros p Hp. injection Hp as <-. exists t0.
      repeat split; try assumption.
      intros t' Ht' Hsym'.
      assert (In t' (t0 :: rest)) as Hin
        by (apply (Permutation_in _ (Permutation_sym Hperm)), Hrows; tauto).
      apply StronglySorted_inv in Hs. destruct Hs as [_ Hf].
      destruct Hin as [<- | Hin]; [lia |].
      rewrite Forall_forall in Hf. apply Hf, Hin.
Qed.

(** The symbols of the store: each symbol that has a tick, once. *)
Theorem symbols_are_distinct :
  forall (db : DataStorage),
    NoDup (get_symbols db) /\
    forall sym, In sym (get_symbols db) <->
                exists t, In t (ticks_table db) /\ t_symbol t = sym.
Proof.
  intros db. unfold get_symbols. split; [apply distinct_NoDup |].
  intros sym. rewrite distinct_In, in_map_iff. split.
  - intros (t & E & Ht). exists t. tauto.
  - intros (t & Ht & E). exists t. tauto.
Qed.

Lemma fold_min_spec (l : list Z) : forall a,
  (forall x, In x (a :: l) -> fold_left Z.min l a <= x) /\ In (fold_left Z.min l a) (a :: l).
Proof.
  induction l as [| y t IH]; intros a.
  - simpl. split; [intros x [<- | []]; lia | left; reflexivity].
  - cbn [fold_left]. destruct (IH (Z.min a y)) as [Hle Hin]. split.
    + intros x [<- | [<- | Hx]].
      * pose proof (Hle (Z.min a y) (or_introl eq_refl)). lia.
      * pose proof (Hle (Z.min a y) (or_introl eq_refl)). lia.
      * apply Hle. right. exact Hx.
    + destruct Hin as [E | Hin].
      * rewrite <- E. destruct (Z.min_spec a y) as [[_ ->] | [_ ->]];
          [left | right; left]; reflexivity.
      * right. right. exact Hin.
Qed.

Lemma fold_max_spec (l : list Z) : forall a,
  (forall x, In x (a :: l) -> x <= fold_left Z.max l a) /\ In (fold_left Z.max l a) (a :: l).
Proof.
  induction l as [| y t IH]; intros a.
  - simpl. split; [intros x [<- | []]; lia | left; reflexivity].
  - cbn [fold_left]. destruct (IH (Z.max a y)) as [Hle Hin]. split.
    + intros x [<- | [<- | Hx]].
      * pose proof (Hle (Z.max a y) (or_introl eq_refl)). lia.
      * pose proof (Hle (Z.max a y) (or_introl eq_refl)). lia.
      * apply Hle. right. exact Hx.
    + destruct Hin as [E | Hin].
      * rewrite <- E. destruct (Z.max_spec a y) as [[_ ->] | [_ ->]];
          [right; left | left]; reflexivity.
      * right. right. exact Hin.
Qed.

(** The data range of a symbol: two NULLs when the symbol has no tick;
    otherwise the timestamps of two stored ticks of the symbol that bound
    the timestamps of all the others. *)
Theorem data_range_bounds :
  forall (db : DataStorage) (sym : string),
    (get_data_range db sym = (None, None) <->
     forall t, In t (ticks_table db) -> t_symbol t <> sym) /\
    (forall lo hi, get_data_range db sym = (Some lo, Some hi) ->
       (exists t, In t (ticks_table db) /\ t_symbol t = sym /\ t_timestamp t = lo) /\
       (exists t, In t (ticks_table db) /\ t_symbol t = sym /\ t_timestamp t = hi) /\
       forall t, In t (ticks_table db) -> t_symbol t = sym ->
                 lo <= t_timestamp t <= hi).
Proof.
  intros db sym. unfold get_data_range.
  set (rows := filter (of_symbol sym) (ticks_table db)).
  assert (forall t, In t rows <-> In t (ticks_table db) /\ t_symbol t = sym) as Hrows.
  { intros t. unfold rows. rewrite filter_In. unfold of_symbol.
    rewrite String.eqb_eq. tauto. }
  destruct (map t_timestamp rows) as [| a rest] eqn:E.
  - assert (rows = []) as Hnil by (destruct rows; [reflexivity | discriminate]).
    split; [| discriminate].
    split; [| reflexivity]. intros _ t Ht Hsym.
    assert (In t rows) as Hin by (apply Hrows; tauto).
    rewrite Hnil in Hin. contradiction.
  - split.
    + split; [discriminate |]. intros Hnone. exfalso.
      destruct rows as [| r rs]; [discriminate |].
      assert (In r (r :: rs)) as Hr by (left; reflexivity).
      apply Hrows in Hr. destruct Hr as [Hr Hs]. apply (Hnone r Hr Hs).
    + intros lo hi H. injection H as <- <-.
      destruct (fold_min_spec rest a) as [Hmin Hmin_in].
      destruct (fold_max_spec rest a) as [Hmax Hmax_in].
      rewrite <- E in Hmin, Hmin_in, Hmax, Hmax_in.
      split; [| split].
      * apply in_map_iff in Hmin_in. destruct Hmin_in as (t & Et & Ht).
        apply Hrows in Ht. exists t. tauto.
      * apply in_map_iff in Hmax_in. destruct Hmax_in as (t & Et & Ht).
        apply Hrows in Ht. exists t. tauto.
      * intros t Ht Hsym.
        assert (In (t_timestamp t) (map t_timestamp rows)) as Hin
          by (apply in_map, Hrows; tauto).
        split; [apply Hmin, Hin | apply Hmax, Hin].
Qed.

Lemma data_range_bounds_witness :
  get_data_range demo_db "btcusdt" = (Some 1000, Some 3000) /\
  forall t, In t (ticks_table demo_db) -> t_symbol t = "btcusdt"%string ->
            1000 <= t_timestamp t <= 3000.
Proof.
  assert (get_data_range demo_db "btcusdt" = (Some 1000, Some 3000)) as H
    by reflexivity.
  split; [exact H |].
  destruct (data_range_bounds demo_db "btcusdt") as [_ Hb].
  destruct (Hb 1000 3000 H) as (_ & _ & Hall). exact Hall.
Defined.

Lemma latest_price_is_most_recent_witness :
  exists p, get_latest_price demo_db "btcusdt" = Some p /\
    exists t, In t (ticks_table demo_db) /\ price t = p /\ t_timestamp t = 3000.
Proof.
  eexists. split; [reflexivity |].
  destruct (latest_price_is_most_recent demo_db "btcusdt") as [_ H].
  destruct (H _ eq_refl) as (t & Hin & _ & Hp & Hmax).
  exists t. split; [exact Hin |]. split; [exact Hp |].
  assert (3000 <= t_timestamp t) as Hge.
  { apply (Hmax (mkTick 3000 "btcusdt" (qz 103) (qz 1))); [left; reflexivity | reflexivity]. }
  assert (t_timestamp t <= 3000) as Hle.
  { simpl in Hin. destruct Hin as [<- | [<- | [<- | []]]]; simpl; lia. }
  lia.
Defined.

End StorageMore.


(** ** Writes to the store, read back *)

Module StorageWrites.

Import Numeric Config Sampler Storage StorageReads StorageFacts SamplerMore.
Local Open Scope Z_scope.

Lemma where_unbounded (sym : string) (t : Tick) :
  where_ t_symbol t_timestamp sym None None t = String.eqb (t_symbol t) sym.
Proof. unfold where_. simpl. rewrite !andb_true_r. reflexivity. Qed.

Lemma where_other_symbol (sym sym' : string) (a b : option Z) (t : Tick) :
  t_symbol t = sym -> sym' <> sym -> where_ t_symbol t_timestamp sym' a b t = false.
Proof.
  intros E Hne. unfold where_.
  assert (String.eqb (t_symbol t) sym' = false) as ->
    by (apply String.eqb_neq; congruence).
  reflexivity.
Qed.

(** A stored tick comes back: reading all ticks of its symbol returns it
    together with the ticks read before, one row more; reads of another
    symbol, and the bars, are as before. *)
Theorem insert_tick_read_back :
  forall (db : DataStorage) (ts : Z) (sym : string) (p s : Qc),
    let db' := insert_tick db ts sym p s in
    Permutation (get_ticks db' sym None None None)
                (mkTick ts sym p s :: get_ticks db sym None None None) /\
    (forall sym' a b l, sym' <> sym ->
       get_ticks db' sym' a b l = get_ticks db sym' a b l) /\
    (forall sym', sym' <> sym ->
       get_latest_price db' sym' = get_latest_price db sym' /\
       get_data_range db' sym' = get_data_range db sym') /\
    bars_tables db' = bars_tables db.
Proof.
  intros db ts sym p s db'. split; [| split; [| split]].
  - unfold get_ticks.
    eapply perm_trans; [apply query_unlimited; reflexivity |].
    eapply perm_trans;
      [| apply perm_skip, Permutation_sym, query_unlimited; reflexivity].
    unfold db', insert_tick. cbn [ticks_table].
    rewrite filter_app. cbn [filter].
    rewrite where_unbounded. cbn [t_symbol]. rewrite String.eqb_refl.
    apply Permutation_sym, Permutation_cons_append.
  - intros sym' a b l Hne. unfold get_ticks, query, db', insert_tick.
    cbn [ticks_table]. rewrite filter_app. cbn [filter].
    rewrite (where_other_symbol sym sym' a b (mkTick ts sym p s) eq_refl Hne).
    rewrite app_nil_r. reflexivity.
  - intros sym' Hne.
    assert (filter (of_symbol sym') (ticks_table db')
            = filter (of_symbol sym') (ticks_table db)) as E.
    { unfold db', insert_tick. cbn [ticks_table]. rewrite filter_app. cbn [filter].
      unfold of_symbol at 2. cbn [t_symbol].
      assert (String.eqb sym sym' = false) as ->
        by (apply String.eqb_neq; congruence).
      apply app_nil_r. }
    unfold get_latest_price, get_data_range. rewrite E. split; reflexivity.
  - reflexivity.
Qed.

Lemma order_desc_newest (x : Tick) (l : list Tick) :
  (forall a, In a l -> t_timestamp a < t_timestamp x) ->
  order_by_timestamp_desc t_timestamp (l ++ [x])
  = x :: order_by_timestamp_desc t_timestamp l.
Proof.
  unfold order_by_timestamp_desc, isort.
  induction l as [| a t IH]; intros Hlt; [reflexivity |].
  cbn [app fold_right]. rewrite IH by (intros b Hb; apply Hlt; right; exact Hb).
  cbn [insert_sorted].
  assert ((t_timestamp x <=? t_timestamp a) = false) as ->
    by (apply Z.leb_gt, Hlt; left; reflexivity).
  reflexivity.
Qed.

(** A tick newer than every stored tick of its symbol becomes the latest
    price of the symbol and the upper end of its data range. *)
Theorem insert_newest_tick_is_latest :
  forall (db : DataStorage) (ts : Z) (sym : string) (p s : Qc),
    (forall t, In t (ticks_table db) -> t_symbol t = sym -> t_timestamp t < ts) ->
    get_latest_price (insert_tick db ts sym p s) sym = Some p /\
    snd (get_data_range (insert_tick db ts sym p s) sym) = Some ts.
Proof.
  intros db ts sym p s Hnew.
  set (x := mkTick ts sym p s).
  assert (filter (of_symbol sym) (ticks_table (insert_tick db ts sym p s))
          = filter (of_symbol sym) (ticks_table db) ++ [x]) as E.
  { unfold insert_tick. cbn [ticks_table]. rewrite filter_app. cbn [filter].
    unfold of_symbol at 2. cbn [t_symbol]. rewrite String.eqb_refl. reflexivity. }
  assert (forall a, In a (filter (of_symbol sym) (ticks_table db)) ->
                    t_timestamp a < t_timestamp x) as Hlt.
  { intros a Ha. apply filter_In in Ha. destruct Ha as [Ha Hs].
    apply String.eqb_eq in Hs. apply (Hnew a Ha Hs). }
  split.
  - unfold get_latest_price. rewrite E, order_desc_newest by exact Hlt. reflexivity.
  - unfold get_data_range. rewrite E.
    destruct (map t_timestamp (filter (of_symbol sym) (ticks_table db) ++ [x]))
      as [| a rest] eqn:Em.
    { rewrite map_app in Em. destruct (map t_timestamp (filter (of_symbol sym) (ticks_table db)));
        discriminate. }
    cbn [snd]. f_equal.
    destruct (StorageMore.fold_max_spec rest a) as [Hmax Hin].
    rewrite <- Em in Hmax, Hin.
    assert (ts <= fold_left Z.max rest a) as Hge.
    { apply Hmax. rewrite map_app. apply in_or_app. right. left. reflexivity. }
    rewrite map_app in Hin. apply in_app_or in Hin. destruct Hin as [Hin | [Hin | []]].
    + apply in_map_iff in Hin. destruct Hin as (t & Et & Ht).
      apply Hlt in Ht. cbn [x t_timestamp] in Ht. lia.
    + symmetry. exact Hin.
Qed.

Lemma insert_newest_tick_is_latest_witness :
  get_latest_price (insert_tick demo_db 4000 "btcusdt" (qz 104) (qz 1)) "btcusdt"
  = Some (qz 104).
Proof.
  apply (insert_newest_tick_is_latest demo_db 4000 "btcusdt" (qz 104) (qz 1)).
  intros t Hin _. simpl in Hin.
  destruct Hin as [<- | [<- | [<- | []]]]; simpl; lia.
Defined.

Lemma insert_tick_read_back_witness :
  let db' := insert_tick demo_db 4000 "ethusdt" (qz 7) (qz 1) in
  "btcusdt"%string <> "ethusdt"%string /\
  get_ticks db' "btcusdt" None None (Some 2) = get_ticks demo_db "btcusdt" None None (Some 2) /\
  get_latest_price db' "btcusdt" = get_latest_price demo_db "btcusdt".
Proof.
  intros db'.
  assert ("btcusdt"%string <> "ethusdt"%string) as Hne by discriminate.
  destruct (insert_tick_read_back demo_db 4000 "ethusdt" (qz 7) (qz 1))
    as (_ & Hticks & Hother & _).
  split; [exact Hne |].
  split; [apply Hticks, Hne | apply (Hother "btcusdt"%string Hne)].
Defined.

End StorageWrites.
